(** * The podinfo operator: reconciliation logic, embedded and verified

    A shallow embedding of [podinfo_operator/kubeutils.py] (the cluster
    gateway) and [podinfo_operator/podinfo_operator.py] (the create and
    update handlers).

    - Python values that travel through the handlers (the parent's spec and
      status, diff entries) are a small dynamically typed universe [value];
      a Python [dict] is an association list in insertion order.
    - The Kubernetes client models ([V1Deployment], [V1Service], ...) are
      records carrying the fields the operator reads or writes.
    - The handlers are effectful: every Kubernetes API call and every
      [kopf.adopt] call may change the cluster or raise.  They live in a
      state-and-exception monad [M] over a [World] made of the cluster and
      the chronological log of the calls issued so far.
    - The cluster API, [kopf.adopt] and three builtins are external
      collaborators; they are the operations of the class [Env], so every
      theorem holds for every behaviour of the cluster. *)

From Stdlib Require Import String Ascii List ZArith Bool DecimalString.
Import ListNotations.
Local Open Scope string_scope.
Local Open Scope list_scope.

Set Warnings "-register-all".

(* ================================================================== *)
(** ** Python values *)
(* ================================================================== *)

(** The JSON-like values found in a custom resource.  Tuples and lists are
    both [VList]; a [dict] keeps its insertion order. *)
Inductive value : Type :=
| VNone
| VBool (b : bool)
| VInt (n : Z)
| VStr (s : string)
| VList (l : list value)
| VDict (d : list (string * value)).

Definition dict : Type := list (string * value).

(** Truth value testing, as done by [if x:] and [x and y]. *)
Definition truthy (v : value) : bool :=
  match v with
  | VNone => false
  | VBool b => b
  | VInt n => negb (n =? 0)%Z
  | VStr s => negb (s =? "")
  | VList l => match l with [] => false | _ :: _ => true end
  | VDict d => match d with [] => false | _ :: _ => true end
  end.

(** [d.get(k)]: the value bound to [k], if any. *)
Fixpoint dict_lookup (k : string) (d : dict) : option value :=
  match d with
  | [] => None
  | (k', v) :: rest => if k' =? k then Some v else dict_lookup k rest
  end.

(** [d.get(k, default)]. *)
Definition dict_get (d : dict) (k : string) (default : value) : value :=
  match dict_lookup k d with
  | Some v => v
  | None => default
  end.

(** [d[k] = v]: an existing key keeps its position, a new key goes last. *)
Fixpoint dict_set (d : dict) (k : string) (v : value) : dict :=
  match d with
  | [] => [(k, v)]
  | (k', v') :: rest =>
      if k' =? k then (k', v) :: rest else (k', v') :: dict_set rest k v
  end.

(** [x in t] for a tuple of strings [t]: some element equals [x]. *)
Definition py_in (x : string) (t : list string) : bool :=
  existsb (String.eqb x) t.

(** [t1 == t2] for tuples of strings. *)
Fixpoint tuple_eqb (t1 t2 : list string) : bool :=
  match t1, t2 with
  | [], [] => true
  | a :: r1, b :: r2 => (a =? b) && tuple_eqb r1 r2
  | _, _ => false
  end.

(** Upper-casing of an ASCII string: the letters a-z go to A-Z, every
    other character stays.  This is what [str.upper] does to a string of
    ASCII characters; [str.upper] itself, which also maps the letters
    beyond ASCII, is an operation of the environment ([str_upper] below). *)
Definition is_ascii_char (c : ascii) : bool := (nat_of_ascii c <? 128)%nat.

Fixpoint is_ascii (s : string) : bool :=
  match s with
  | EmptyString => true
  | String c rest => is_ascii_char c && is_ascii rest
  end.

Definition upper_ascii (c : ascii) : ascii :=
  let n := nat_of_ascii c in
  if (97 <=? n)%nat && (n <=? 122)%nat then ascii_of_nat (n - 32) else c.

Fixpoint upper (s : string) : string :=
  match s with
  | EmptyString => EmptyString
  | String c rest => String (upper_ascii c) (upper rest)
  end.

(* ================================================================== *)
(** ** Exceptions and results *)
(* ================================================================== *)

Inductive exn : Type :=
| ApiException (status : Z)        (* kubernetes.client.ApiException *)
| KeyError (key : string)
| TypeError (what : string)
| AttributeError (what : string)
| UnboundLocalError (var : string)
| ValueError (what : string)
| OtherException (what : string).  (* anything else a library raises *)

Inductive Result (A : Type) : Type :=
| Ok (a : A)
| Raise (e : exn).

Arguments Ok {A} a.
Arguments Raise {A} e.

(** [v[k]] with a string key: only a [dict] can be subscripted that way. *)
Definition getitem (v : value) (k : string) : Result value :=
  match v with
  | VDict d =>
      match dict_lookup k d with
      | Some x => Ok x
      | None => Raise (KeyError k)
      end
  | _ => Raise (TypeError "not subscriptable by str")
  end.

(** [v.get(k)]: a method of [dict] only. *)
Definition get_method (v : value) (k : string) : Result value :=
  match v with
  | VDict d => Ok (dict_get d k VNone)
  | _ => Raise (AttributeError "get")
  end.

(** [v.items()]: a method of [dict] only. *)
Definition items_method (v : value) : Result (list (string * value)) :=
  match v with
  | VDict d => Ok d
  | _ => Raise (AttributeError "items")
  end.

(** [v.update({k: x})]: a method of [dict] only; the dict is mutated in
    place, which the model renders by returning the new contents. *)
Definition update_method (v : value) (k : string) (x : value) : Result value :=
  match v with
  | VDict d => Ok (VDict (dict_set d k x))
  | _ => Raise (AttributeError "update")
  end.

(* ================================================================== *)
(** ** Kubernetes client models *)
(* ================================================================== *)

(** The generated model classes, reduced to the attributes the operator
    sets or reads.  An attribute the client leaves at [None] is an [option].
    Every object the operator builds, and every object an API call hands
    back, has its [metadata].  Of the client-side validation the model
    constructors perform, the operator can fail one check only, the port of
    [V1ContainerPort]: it is modelled where the constructor is called, in
    [create_deployment_and_service]. *)

Record datetime : Type := {
  year : Z; month : Z; day : Z;
  hour : Z; minute : Z; second : Z; microsecond : Z
}.

Record V1OwnerReference : Type := {
  owner_kind : string;
  owner_name : string;
  owner_uid : string
}.

Record V1ObjectMeta : Type := {
  meta_name : option string;
  meta_namespace : option string;
  meta_labels : option (list (string * string));
  meta_uid : option string;
  meta_creation_timestamp : option datetime;
  meta_owner_references : list V1OwnerReference
}.

Record V1EnvVar : Type := {
  env_name : string;
  env_value : value
}.

Record V1ContainerPort : Type := {
  container_port : option Z
}.

Record V1ResourceRequirements : Type := {
  requests : dict;
  limits : dict
}.

Record V1Container : Type := {
  container_name : string;
  container_image : string;
  container_ports : option (list V1ContainerPort);
  container_resources : V1ResourceRequirements;
  container_env : option (list V1EnvVar)
}.

Record V1PodSpec : Type := {
  containers : list V1Container
}.

Record V1PodTemplateSpec : Type := {
  template_metadata : V1ObjectMeta;
  template_spec : V1PodSpec
}.

Record V1DeploymentSpec : Type := {
  replicas : value;
  template : V1PodTemplateSpec;
  selector : value
}.

Record V1Deployment : Type := {
  deployment_api_version : option string;
  deployment_kind : option string;
  deployment_metadata : V1ObjectMeta;
  deployment_spec : option V1DeploymentSpec
}.

Record V1ServicePort : Type := {
  service_port_name : string;
  service_port_protocol : string;
  service_port : option Z
}.

Record V1ServiceSpec : Type := {
  service_selector : list (string * string);
  service_ports : list V1ServicePort;
  service_type : string
}.

Record V1Service : Type := {
  service_api_version : option string;
  service_kind : option string;
  service_metadata : V1ObjectMeta;
  service_spec : option V1ServiceSpec
}.

Record V1Status : Type := {
  status_message : option string
}.

(** [V1ObjectMeta(name=..., namespace=..., labels=...)]: every other field
    of a freshly built object is unset. *)
Definition object_meta (name : option string) (namespace : option string)
    (labels : option (list (string * string))) : V1ObjectMeta :=
  {| meta_name := name; meta_namespace := namespace; meta_labels := labels;
     meta_uid := None; meta_creation_timestamp := None;
     meta_owner_references := [] |}.

(* ================================================================== *)
(** ** The world: cluster, call log, external collaborators *)
(* ================================================================== *)

(** One entry per call that leaves the operator's own code. *)
Inductive Call : Type :=
| CreateDeployment (body : V1Deployment) (namespace : string)
| PatchDeployment (name namespace : string) (body : V1Deployment)
| DeleteDeployment (name namespace : string)
| ListDeployment (namespace : string)
| CreateService (namespace : string) (body : V1Service)
| PatchService (name namespace : string) (body : V1Service)
| DeleteService (name namespace : string)
| AdoptDeployment (obj : V1Deployment)
| AdoptService (obj : V1Service).

(** The collaborators the operator calls but does not implement: the
    [AppsV1Api] and [CoreV1Api] clients ([api_apps], [api_core]),
    [kopf.adopt], [datetime.strftime("%c")], the formatting of a
    non-string value inside an f-string and [str.upper].  A mutating API call returns its
    answer and the cluster it leaves behind; listing only reads.
    [kopf.adopt] mutates the object it is given: the model returns the
    mutated object. *)
Class Env : Type := {
  Cluster : Type;
  create_namespaced_deployment :
    V1Deployment -> string -> Cluster -> Result V1Deployment * Cluster;
  patch_namespaced_deployment :
    string -> string -> V1Deployment -> Cluster -> Result V1Deployment * Cluster;
  delete_namespaced_deployment :
    string -> string -> Cluster -> Result V1Status * Cluster;
  list_namespaced_deployment :
    string -> Cluster -> Result (list V1Deployment);
  create_namespaced_service :
    string -> V1Service -> Cluster -> Result V1Service * Cluster;
  patch_namespaced_service :
    string -> string -> V1Service -> Cluster -> Result V1Service * Cluster;
  delete_namespaced_service :
    string -> string -> Cluster -> Result V1Status * Cluster;
  kopf_adopt_deployment : V1Deployment -> Result V1Deployment;
  kopf_adopt_service : V1Service -> Result V1Service;
  strftime_c : datetime -> string;
  py_repr : value -> string;
  str_upper : string -> string
}.

Record World `{Env} : Type := {
  cluster : Cluster;
  calls : list Call
}.

(** Computations that may call out, change the cluster and raise. *)
Definition M `{Env} (A : Type) : Type := World -> Result A * World.

Definition ret `{Env} {A : Type} (a : A) : M A := fun w => (Ok a, w).

Definition raise `{Env} {A : Type} (e : exn) : M A := fun w => (Raise e, w).

Definition bind `{Env} {A B : Type} (m : M A) (k : A -> M B) : M B :=
  fun w =>
    match m w with
    | (Ok a, w') => k a w'
    | (Raise e, w') => (Raise e, w')
    end.

(** A pure computation that may raise. *)
Definition lift `{Env} {A : Type} (r : Result A) : M A := fun w => (r, w).

Notation "x <- m ;; k" := (bind m (fun x => k))
  (at level 61, m at next level, right associativity).
Notation "m ;;; k" := (bind m (fun _ => k))
  (at level 61, right associativity).

(** Record the call, then let the cluster answer it. *)
Definition log `{Env} (c : Call) (w : World) : World :=
  {| cluster := cluster w; calls := calls w ++ [c] |}.

Definition mutate `{Env} {A : Type} (c : Call)
    (op : Cluster -> Result A * Cluster) : M A :=
  fun w =>
    let (r, cl) := op (cluster w) in
    (r, {| cluster := cl; calls := calls w ++ [c] |}).

Definition query `{Env} {A : Type} (c : Call)
    (op : Cluster -> Result A) : M A :=
  fun w => (op (cluster w), log c w).

Definition external `{Env} {A : Type} (c : Call) (r : Result A) : M A :=
  fun w => (r, log c w).

(** [try: body / except ApiException as ex: handler ex.status]: only an
    [ApiException] is caught; the handler runs in the world the failed
    body left behind. *)
Definition try_except_ApiException `{Env} {A : Type}
    (body : M A) (handler : Z -> M A) : M A :=
  fun w =>
    match body w with
    | (Raise (ApiException status), w') => handler status w'
    | other => other
    end.

(** Reading a local variable that no executed statement has bound. *)
Definition read_local `{Env} {A : Type} (var : string) (x : option A) : M A :=
  match x with
  | Some a => ret a
  | None => raise (UnboundLocalError var)
  end.

(* ================================================================== *)
(** ** kubeutils.py *)
(* ================================================================== *)

Section Kubeutils.
Context `{E : Env}.

(** What an f-string does to [{v}]: a [str] is spliced as it is, a
    scalar is printed, a container is left to the interpreter. *)
Definition py_format (v : value) : string :=
  match v with
  | VStr s => s
  | VInt n => NilZero.string_of_int (Z.to_int n)
  | VBool true => "True"
  | VBool false => "False"
  | VNone => "None"
  | _ => py_repr v
  end.

Definition create_deployment_object (name namespace : string)
    (image_registry image_tag : value) (replicas : value)
    (resources : V1ResourceRequirements)
    (expose_ports : option (list V1ContainerPort))
    (env_vars : option (list V1EnvVar)) : V1Deployment :=
  let container :=
    {| container_name := name;
       container_image := py_format image_registry ++ ":" ++ py_format image_tag;
       container_ports := expose_ports;
       container_resources := resources;
       container_env := env_vars |} in
  let template :=
    {| template_metadata :=
         object_meta None (Some namespace)
                     (Some [("app.kubernetes.io/name", name)]);
       template_spec := {| containers := [container] |} |} in
  let spec :=
    {| replicas := replicas;
       template := template;
       selector :=
         VDict [("matchLabels",
                 VDict [("app.kubernetes.io/name", VStr name)])] |} in
  {| deployment_api_version := Some "apps/v1";
     deployment_kind := Some "Deployment";
     deployment_metadata := object_meta (Some name) (Some namespace) None;
     deployment_spec := Some spec |}.

Definition create_or_update_deployment (name : string)
    (deploy_obj : V1Deployment) (namespace : string) : M V1Deployment :=
  deployment <-
    try_except_ApiException
      (d <- mutate (CreateDeployment deploy_obj namespace)
                   (create_namespaced_deployment deploy_obj namespace) ;;
       ret (Some d))
      (fun status =>
         if (status =? 409)%Z then
           d <- mutate (PatchDeployment name namespace deploy_obj)
                       (patch_namespaced_deployment name namespace deploy_obj) ;;
           ret (Some d)
         else ret None) ;;
  read_local "deployment" deployment.

Definition create_or_update_service (name : string)
    (svc_obj : V1Service) (namespace : string) : M V1Service :=
  service <-
    try_except_ApiException
      (s <- mutate (CreateService namespace svc_obj)
                   (create_namespaced_service namespace svc_obj) ;;
       ret (Some s))
      (fun status =>
         if (status =? 409)%Z then
           s <- mutate (PatchService name namespace svc_obj)
                       (patch_namespaced_service name namespace svc_obj) ;;
           ret (Some s)
         else ret None) ;;
  read_local "service" service.

(** The result is [None] when the function falls off its end. *)
Definition teardown_deployment (name namespace : string)
    : M (option V1Status) :=
  try_except_ApiException
    (s <- mutate (DeleteDeployment name namespace)
                 (delete_namespaced_deployment name namespace) ;;
     ret (Some s))
    (fun status =>
       if negb (status =? 404)%Z then raise (ApiException status)
       else ret None).

Definition teardown_service (name namespace : string)
    : M (option V1Status) :=
  try_except_ApiException
    (s <- mutate (DeleteService name namespace)
                 (delete_namespaced_service name namespace) ;;
     ret (Some s))
    (fun status =>
       if negb (status =? 404)%Z then raise (ApiException status)
       else ret None).

Definition has_name (name : string) (d : V1Deployment) : bool :=
  match meta_name (deployment_metadata d) with
  | Some n => n =? name
  | None => false
  end.

Definition get_deployment (name namespace : string)
    : M (option V1Deployment) :=
  deployments <- query (ListDeployment namespace)
                       (list_namespaced_deployment namespace) ;;
  ret (find (has_name name) deployments).

Definition create_service_object (name namespace : string)
    (ports : list V1ServicePort) (selector : list (string * string))
    : V1Service :=
  let spec :=
    {| service_selector := selector;
       service_ports := ports;
       service_type := "ClusterIP" |} in
  {| service_api_version := Some "v1";
     service_kind := Some "Service";
     service_metadata := object_meta (Some name) (Some namespace) None;
     service_spec := Some spec |}.

End Kubeutils.

(* ================================================================== *)
(** ** podinfo_operator.py *)
(* ================================================================== *)

Definition PODINFO_DEPLOYMENT_NAME : string := "podinfo".
Definition PODINFO_PORT : Z := 9898.
Definition REDIS_DEPLOYMENT_NAME : string := "redis".
Definition REDIS_PORT : Z := 6379.
Definition DEFAULT_STATUS : value :=
  VDict [("created_on", VStr "Not Created"); ("uid", VStr "")].

(** One item of the diff the framework hands to the update handler. *)
Record DiffItem : Type := {
  oper : string;
  field : list string;
  old_val : value;
  new_val : value
}.

Section Operator.
Context `{E : Env}.

(** [deployment.metadata.uid] as it lands in the status. *)
Definition uid_value (d : V1Deployment) : value :=
  match meta_uid (deployment_metadata d) with
  | Some u => VStr u
  | None => VNone
  end.

(** Lines 63-72: the deployment object the sequence builds, for a port
    that [V1ContainerPort] accepted. *)
Definition deploy_obj (name namespace : string)
    (image_repo image_tag : value) (replicas : value)
    (resources : V1ResourceRequirements)
    (port : Z) (env_vars : option (list V1EnvVar))
    : V1Deployment :=
  create_deployment_object name namespace image_repo image_tag replicas
    resources (Some [{| container_port := Some port |}]) env_vars.

(** Lines 74-79: the service object the sequence builds. *)
Definition svc_obj (name namespace : string) (port : Z) : V1Service :=
  create_service_object name namespace
    [{| service_port_name := name;
        service_port_protocol := "TCP";
        service_port := Some port |}]
    [("app.kubernetes.io/name", name)].

(** [expose_port] defaults to [None], and [V1ContainerPort] refuses a
    [container_port] of [None] with [ValueError]: that happens at line 70,
    while the arguments of [create_deployment_object] are evaluated, so
    before anything is built, adopted or sent.
    [kopf.adopt] mutates its argument, so what the gateway receives is the
    adopted object. *)
Definition create_deployment_and_service (name namespace : string)
    (image_repo image_tag : value) (replicas : value)
    (resources : V1ResourceRequirements)
    (expose_port : option Z) (env_vars : option (list V1EnvVar)) : M value :=
  match expose_port with
  | None => raise (ValueError "container_port")
  | Some port =>
      let built_deploy :=
        deploy_obj name namespace image_repo image_tag replicas resources
                   port env_vars in
      let built_svc := svc_obj name namespace port in
      adopted_deploy <- external (AdoptDeployment built_deploy)
                                 (kopf_adopt_deployment built_deploy) ;;
      adopted_svc <- external (AdoptService built_svc)
                              (kopf_adopt_service built_svc) ;;
      deployment <- create_or_update_deployment name adopted_deploy namespace ;;
      service <- create_or_update_service name adopted_svc namespace ;;
      created_on <-
        match meta_creation_timestamp (deployment_metadata deployment) with
        | Some t => ret (VStr (strftime_c t))
        | None => raise (AttributeError "strftime")
        end ;;
      ret (VDict [("created_on", created_on); ("uid", uid_value deployment)])
  end.

(** Lines 112-115: one variable per item of [spec.get("ui", {})]. *)
Definition ui_vars (spec : dict) : Result (list V1EnvVar) :=
  match items_method (dict_get spec "ui" (VDict [])) with
  | Ok kvs =>
      Ok (map (fun kv => {| env_name := "PODINFO_UI_" ++ str_upper (fst kv);
                            env_value := snd kv |}) kvs)
  | Raise e => Raise e
  end.

(** Lines 118-123. *)
Definition default_env_vars : list V1EnvVar :=
  [{| env_name := "PODINFO_CACHE_SERVER";
      env_value :=
        VStr ("tcp://" ++ py_format (VStr REDIS_DEPLOYMENT_NAME) ++ ":"
                       ++ py_format (VInt REDIS_PORT)) |}].

(** Line 124. *)
Definition env_vars (spec : dict) : Result (list V1EnvVar) :=
  match ui_vars spec with
  | Ok vars => Ok (default_env_vars ++ vars)
  | Raise e => Raise e
  end.

Definition create_podinfo_deployment_and_service (namespace : string)
    (spec : dict) : M value :=
  env <- lift (env_vars spec) ;;
  image_repo <- lift (getitem (dict_get spec "image" VNone) "repository") ;;
  image_tag <- lift (getitem (dict_get spec "image" VNone) "tag") ;;
  let replicas := dict_get spec "replicaCount" VNone in
  cpu <- lift (getitem (dict_get spec "resources" VNone) "cpuRequest") ;;
  memory <- lift (getitem (dict_get spec "resources" VNone) "memoryLimit") ;;
  create_deployment_and_service PODINFO_DEPLOYMENT_NAME namespace
    image_repo image_tag replicas
    {| requests := [("cpu", cpu)]; limits := [("memory", memory)] |}
    (Some PODINFO_PORT) (Some env).

Definition redis_resources : V1ResourceRequirements :=
  {| requests := [("cpu", VStr "100m"); ("memory", VStr "32Mi")];
     limits := [("cpu", VStr "1000m"); ("memory", VStr "128Mi")] |}.

Definition create_redis_deployment_and_service (namespace : string)
    (spec : dict) : M value :=
  create_deployment_and_service REDIS_DEPLOYMENT_NAME namespace
    (VStr "redis") (VStr "7.0.12") (VInt 1) redis_resources
    (Some REDIS_PORT) None.

(** The status map the create handler returns. *)
Definition children_status (redis_status podinfo_status : value) : value :=
  VDict [("children",
          VDict [("redis", redis_status); ("podInfo", podinfo_status)])].

Definition on_create (spec : dict) (namespace : string) : M value :=
  redis_enabled <-
    lift (get_method (dict_get spec "redis" (VDict [])) "enabled") ;;
  podinfo_status <- create_podinfo_deployment_and_service namespace spec ;;
  redis_status <-
    (if truthy redis_enabled
     then create_redis_deployment_and_service namespace spec
     else ret DEFAULT_STATUS) ;;
  ret (children_status redis_status podinfo_status).

(** Lines 249-263: the branch taken when ["redis" in field]. *)
Definition redis_branch (spec : dict) (namespace : string)
    (field : list string) (new_val : value) (new_status : value) : M value :=
  let redis_enabled :=
    tuple_eqb ["spec"; "redis"; "enabled"] field && truthy new_val in
  if redis_enabled then
    found <- get_deployment "redis" namespace ;;
    match found with
    | None =>
        redis_status <- create_redis_deployment_and_service namespace spec ;;
        lift (update_method new_status "redis" redis_status)
    | Some _ => ret new_status
    end
  else
    teardown_deployment "redis" namespace ;;;
    teardown_service "redis" namespace ;;;
    ret new_status.

(** Lines 265-272: the branch taken otherwise. *)
Definition podinfo_branch (spec : dict) (namespace : string)
    (new_status : value) : M value :=
  found <- get_deployment "podinfo" namespace ;;
  match found with
  | Some _ =>
      podinfo_status <- create_podinfo_deployment_and_service namespace spec ;;
      lift (update_method new_status "podInfo" podinfo_status)
  | None => ret new_status
  end.

(** The body of the [for] loop over the diff (lines 248-272). *)
Definition on_update_item (spec : dict) (namespace : string)
    (item : DiffItem) (new_status : value) : M value :=
  if py_in "redis" (field item)
  then redis_branch spec namespace (field item) (new_val item) new_status
  else podinfo_branch spec namespace new_status.

Fixpoint on_update_loop (spec : dict) (namespace : string)
    (diff : list DiffItem) (new_status : value) : M value :=
  match diff with
  | [] => ret new_status
  | item :: rest =>
      new_status' <- on_update_item spec namespace item new_status ;;
      on_update_loop spec namespace rest new_status'
  end.

Definition on_update (spec : dict) (status : dict) (namespace : string)
    (diff : list DiffItem) : M value :=
  on_create_status <- lift (getitem (VDict status) "on_create") ;;
  new_status <- lift (getitem on_create_status "children") ;;
  on_update_loop spec namespace diff new_status.

End Operator.

(* ================================================================== *)
(** ** Two concrete environments *)
(* ================================================================== *)

(** What [kopf.adopt] leaves on an object's metadata: one more owner
    reference, the parent's. *)
Definition add_owner (o : V1OwnerReference) (m : V1ObjectMeta) : V1ObjectMeta :=
  {| meta_name := meta_name m;
     meta_namespace := meta_namespace m;
     meta_labels := meta_labels m;
     meta_uid := meta_uid m;
     meta_creation_timestamp := meta_creation_timestamp m;
     meta_owner_references := meta_owner_references m ++ [o] |}.

Definition own_deployment (o : V1OwnerReference) (d : V1Deployment)
    : V1Deployment :=
  {| deployment_api_version := deployment_api_version d;
     deployment_kind := deployment_kind d;
     deployment_metadata := add_owner o (deployment_metadata d);
     deployment_spec := deployment_spec d |}.

Definition own_service (o : V1OwnerReference) (s : V1Service) : V1Service :=
  {| service_api_version := service_api_version s;
     service_kind := service_kind s;
     service_metadata := add_owner o (service_metadata s);
     service_spec := service_spec s |}.

Definition parent_reference : V1OwnerReference :=
  {| owner_kind := "MyAppResource";
     owner_name := "my-app";
     owner_uid := "8f0c1d2e" |}.

(** *** Patched clients, as in the unit tests

    Every API method answers with a fixed return value or a fixed side
    effect, whatever its arguments and however often it is called.
    The concrete environments of this file are run on keys of ASCII
    characters only, where [str.upper] is [upper]. *)
Record Patches : Type := {
  on_create_deployment : Result V1Deployment;
  on_patch_deployment : Result V1Deployment;
  on_delete_deployment : Result V1Status;
  on_list_deployment : Result (list V1Deployment);
  on_create_service : Result V1Service;
  on_patch_service : Result V1Service;
  on_delete_service : Result V1Status
}.

Definition PatchedEnv (p : Patches) : Env :=
  {| Cluster := unit;
     create_namespaced_deployment := fun _ _ c => (on_create_deployment p, c);
     patch_namespaced_deployment := fun _ _ _ c => (on_patch_deployment p, c);
     delete_namespaced_deployment := fun _ _ c => (on_delete_deployment p, c);
     list_namespaced_deployment := fun _ _ => on_list_deployment p;
     create_namespaced_service := fun _ _ c => (on_create_service p, c);
     patch_namespaced_service := fun _ _ _ c => (on_patch_service p, c);
     delete_namespaced_service := fun _ _ c => (on_delete_service p, c);
     kopf_adopt_deployment := fun d => Ok (own_deployment parent_reference d);
     kopf_adopt_service := fun s => Ok (own_service parent_reference s);
     strftime_c := fun _ => "Sat Jul 29 01:08:24 2023";
     py_repr := fun _ => "<object>";
     str_upper := upper |}.

(** *** A small in-memory cluster

    Objects are kept per namespace and name.  Creating an existing name is
    a conflict (409), patching or deleting a missing one is 404, an object
    without a name is rejected (422).  A created object receives a fresh
    uid and a creation timestamp; a patched one keeps both. *)
Record Store : Type := {
  store_deployments : list (string * V1Deployment);
  store_services : list (string * V1Service);
  store_created : nat
}.

Definition empty_store : Store :=
  {| store_deployments := []; store_services := []; store_created := 0 |}.

Definition store_clock : datetime :=
  {| year := 2023; month := 7; day := 29;
     hour := 1; minute := 8; second := 24; microsecond := 508213 |}.

Definition fresh_uid (n : nat) : string :=
  "uid-" ++ NilZero.string_of_uint (Nat.to_uint n).

Definition name_is (n : string) (m : V1ObjectMeta) : bool :=
  match meta_name m with
  | Some n' => n' =? n
  | None => false
  end.

(** The metadata of the live object: the body's, with the server's fields. *)
Definition live_meta (m : V1ObjectMeta) (uid : option string)
    (created : option datetime) : V1ObjectMeta :=
  {| meta_name := meta_name m;
     meta_namespace := meta_namespace m;
     meta_labels := meta_labels m;
     meta_uid := uid;
     meta_creation_timestamp := created;
     meta_owner_references := meta_owner_references m |}.

Definition live_deployment (body : V1Deployment) (uid : option string)
    (created : option datetime) : V1Deployment :=
  {| deployment_api_version := deployment_api_version body;
     deployment_kind := deployment_kind body;
     deployment_metadata := live_meta (deployment_metadata body) uid created;
     deployment_spec := deployment_spec body |}.

Definition live_service (body : V1Service) (uid : option string)
    (created : option datetime) : V1Service :=
  {| service_api_version := service_api_version body;
     service_kind := service_kind body;
     service_metadata := live_meta (service_metadata body) uid created;
     service_spec := service_spec body |}.

Definition held {A : Type} (meta : A -> V1ObjectMeta) (ns name : string)
    (entry : string * A) : bool :=
  (fst entry =? ns) && name_is name (meta (snd entry)).

Definition store_create_deployment (body : V1Deployment) (ns : string)
    (s : Store) : Result V1Deployment * Store :=
  match meta_name (deployment_metadata body) with
  | None => (Raise (ApiException 422), s)
  | Some name =>
      if existsb (held deployment_metadata ns name) (store_deployments s)
      then (Raise (ApiException 409), s)
      else
        let d := live_deployment body (Some (fresh_uid (store_created s)))
                                 (Some store_clock) in
        (Ok d, {| store_deployments := store_deployments s ++ [(ns, d)];
                  store_services := store_services s;
                  store_created := S (store_created s) |})
  end.

Definition store_patch_deployment (name ns : string) (body : V1Deployment)
    (s : Store) : Result V1Deployment * Store :=
  match find (held deployment_metadata ns name) (store_deployments s) with
  | None => (Raise (ApiException 404), s)
  | Some (_, old) =>
      let d := live_deployment body (meta_uid (deployment_metadata old))
                 (meta_creation_timestamp (deployment_metadata old)) in
      (Ok d,
       {| store_deployments :=
            map (fun e => if held deployment_metadata ns name e
                          then (ns, d) else e) (store_deployments s);
          store_services := store_services s;
          store_created := store_created s |})
  end.

Definition store_delete_deployment (name ns : string) (s : Store)
    : Result V1Status * Store :=
  if existsb (held deployment_metadata ns name) (store_deployments s)
  then (Ok {| status_message := Some "Success" |},
        {| store_deployments :=
             filter (fun e => negb (held deployment_metadata ns name e))
                    (store_deployments s);
           store_services := store_services s;
           store_created := store_created s |})
  else (Raise (ApiException 404), s).

Definition store_list_deployment (ns : string) (s : Store)
    : Result (list V1Deployment) :=
  Ok (map snd (filter (fun e => fst e =? ns) (store_deployments s))).

Definition store_create_service (ns : string) (body : V1Service)
    (s : Store) : Result V1Service * Store :=
  match meta_name (service_metadata body) with
  | None => (Raise (ApiException 422), s)
  | Some name =>
      if existsb (held service_metadata ns name) (store_services s)
      then (Raise (ApiException 409), s)
      else
        let v := live_service body (Some (fresh_uid (store_created s)))
                              (Some store_clock) in
        (Ok v, {| store_deployments := store_deployments s;
                  store_services := store_services s ++ [(ns, v)];
                  store_created := S (store_created s) |})
  end.

Definition store_patch_service (name ns : string) (body : V1Service)
    (s : Store) : Result V1Service * Store :=
  match find (held service_metadata ns name) (store_services s) with
  | None => (Raise (ApiException 404), s)
  | Some (_, old) =>
      let v := live_service body (meta_uid (service_metadata old))
                 (meta_creation_timestamp (service_metadata old)) in
      (Ok v,
       {| store_deployments := store_deployments s;
          store_services :=
            map (fun e => if held service_metadata ns name e
                          then (ns, v) else e) (store_services s);
          store_created := store_created s |})
  end.

Definition store_delete_service (name ns : string) (s : Store)
    : Result V1Status * Store :=
  if existsb (held service_metadata ns name) (store_services s)
  then (Ok {| status_message := Some "Success" |},
        {| store_deployments := store_deployments s;
           store_services :=
             filter (fun e => negb (held service_metadata ns name e))
                    (store_services s);
           store_created := store_created s |})
  else (Raise (ApiException 404), s).

Definition StoreEnv : Env :=
  {| Cluster := Store;
     create_namespaced_deployment := store_create_deployment;
     patch_namespaced_deployment := store_patch_deployment;
     delete_namespaced_deployment := store_delete_deployment;
     list_namespaced_deployment := store_list_deployment;
     create_namespaced_service := store_create_service;
     patch_namespaced_service := store_patch_service;
     delete_namespaced_service := store_delete_service;
     kopf_adopt_deployment := fun d => Ok (own_deployment parent_reference d);
     kopf_adopt_service := fun s => Ok (own_service parent_reference s);
     strftime_c := fun _ => "Sat Jul 29 01:08:24 2023";
     py_repr := fun _ => "<object>";
     str_upper := upper |}.

(** A world on the in-memory cluster, with the calls logged so far. *)
Definition store_logged (s : Store) (l : list Call) : @World StoreEnv :=
  {| cluster := (s : @Cluster StoreEnv); calls := l |}.

(** A world on the in-memory cluster, before any call. *)
Definition store_world (s : Store) : @World StoreEnv := store_logged s [].

(** A world on patched clients, with the calls logged so far. *)
Definition patched_logged (p : Patches) (l : list Call)
    : @World (PatchedEnv p) :=
  {| cluster := (tt : @Cluster (PatchedEnv p)); calls := l |}.

(** A world on patched clients, before any call. *)
Definition patched_world (p : Patches) : @World (PatchedEnv p) :=
  patched_logged p [].

(* ================================================================== *)
(** ** Vocabulary of the properties *)
(* ================================================================== *)

(** [v.get(k)] read off a status or spec value, for statements. *)
Definition value_lookup (k : string) (v : value) : option value :=
  match v with
  | VDict d => dict_lookup k d
  | _ => None
  end.

(** [p] occurs somewhere inside [s]. *)
Fixpoint contains (p s : string) : bool :=
  match s with
  | EmptyString => prefix p EmptyString
  | String _ rest => prefix p s || contains p rest
  end.

(** Loose string containment, in the words of the specification: some
    segment of the field path has "redis" as a substring. *)
Definition mentions_redis (field : list string) : bool :=
  existsb (contains "redis") field.

(** Successive [update] calls on a status map. *)
Fixpoint merge_all (st : value) (ms : list (string * value)) : Result value :=
  match ms with
  | [] => Ok st
  | (k, v) :: rest =>
      match update_method st k v with
      | Ok st' => merge_all st' rest
      | Raise e => Raise e
      end
  end.

(** The parent's [redis.enabled] flag is set... *)
Definition redis_is_enabled (spec : dict) : Prop :=
  exists r, dict_lookup "redis" spec = Some (VDict r)
            /\ truthy (dict_get r "enabled" VNone) = true.

(** ... or it is false, or missing along with the whole [redis] key. *)
Definition redis_is_disabled (spec : dict) : Prop :=
  dict_lookup "redis" spec = None
  \/ exists r, dict_lookup "redis" spec = Some (VDict r)
               /\ truthy (dict_get r "enabled" VNone) = false.

Definition is_dict (v : value) : bool :=
  match v with VDict _ => true | _ => false end.

Definition has_key (k : string) (v : value) : bool :=
  match value_lookup k v with Some _ => true | None => false end.

(** The fields the podinfo sequence reads are present: [image] with
    [repository] and [tag], [resources] with [cpuRequest] and
    [memoryLimit], and [ui], when given, is a mapping. *)
Definition spec_complete (spec : dict) : bool :=
  has_key "repository" (dict_get spec "image" VNone)
  && has_key "tag" (dict_get spec "image" VNone)
  && has_key "cpuRequest" (dict_get spec "resources" VNone)
  && has_key "memoryLimit" (dict_get spec "resources" VNone)
  && is_dict (dict_get spec "ui" (VDict [])).

(** A live deployment as an API server returns it: it has a non-empty uid
    and a creation timestamp. *)
Definition live (d : V1Deployment) : Prop :=
  (exists u, meta_uid (deployment_metadata d) = Some u /\ u <> "")
  /\ meta_creation_timestamp (deployment_metadata d) <> None.

(** A cooperative environment, as long as the cluster stays within the
    states [Inv]: adoption succeeds and keeps the object's name; creating a
    named object either succeeds or reports a conflict, and after a conflict
    the patch by that name succeeds; deployments come back live. *)
Record healthy `{E : Env} (Inv : Cluster -> Prop) : Prop := {
  adopt_deployment_ok : forall obj, exists obj',
      kopf_adopt_deployment obj = Ok obj'
      /\ meta_name (deployment_metadata obj')
         = meta_name (deployment_metadata obj);
  adopt_service_ok : forall obj, exists obj',
      kopf_adopt_service obj = Ok obj'
      /\ meta_name (service_metadata obj') = meta_name (service_metadata obj);
  create_deployment_ok : forall body ns name c,
      Inv c ->
      meta_name (deployment_metadata body) = Some name ->
      (exists d c', create_namespaced_deployment body ns c = (Ok d, c')
                    /\ live d /\ Inv c')
      \/ (exists c', create_namespaced_deployment body ns c
                     = (Raise (ApiException 409), c')
                     /\ exists d c'',
                          patch_namespaced_deployment name ns body c'
                          = (Ok d, c'') /\ live d /\ Inv c'');
  create_service_ok : forall body ns name c,
      Inv c ->
      meta_name (service_metadata body) = Some name ->
      (exists s c', create_namespaced_service ns body c = (Ok s, c')
                    /\ Inv c')
      \/ (exists c', create_namespaced_service ns body c
                     = (Raise (ApiException 409), c')
                     /\ exists s c'',
                          patch_namespaced_service name ns body c'
                          = (Ok s, c'') /\ Inv c'')
}.

Arguments adopt_deployment_ok {E Inv} _ obj.
Arguments adopt_service_ok {E Inv} _ obj.
Arguments create_deployment_ok {E Inv} _ body ns {name c} _ _.
Arguments create_service_ok {E Inv} _ body ns {name c} _ _.

(** The states of the in-memory cluster reached from the empty store: every
    deployment it holds is live. *)
Definition store_live (s : Store) : Prop :=
  Forall (fun e => live (snd e)) (store_deployments s).

(** The name of the object a mutating call is about. *)
Definition call_target (c : Call) : option string :=
  match c with
  | CreateDeployment body _ => meta_name (deployment_metadata body)
  | PatchDeployment name _ _ => Some name
  | DeleteDeployment name _ => Some name
  | CreateService _ body => meta_name (service_metadata body)
  | PatchService name _ _ => Some name
  | DeleteService name _ => Some name
  | ListDeployment _ => None
  | AdoptDeployment obj => meta_name (deployment_metadata obj)
  | AdoptService obj => meta_name (service_metadata obj)
  end.

(** Calls that write an object to the cluster. *)
Definition is_write (c : Call) : bool :=
  match c with
  | CreateDeployment _ _ | PatchDeployment _ _ _
  | CreateService _ _ | PatchService _ _ _ => true
  | _ => false
  end.

(** In a log, every body written to the cluster is the outcome of an
    adoption call found earlier in the log ([seen] holds what came
    before). *)
Fixpoint adopted_before_use `{E : Env} (seen l : list Call) : Prop :=
  match l with
  | [] => True
  | c :: rest =>
      match c with
      | CreateDeployment body _ | PatchDeployment _ _ body =>
          exists obj, In (AdoptDeployment obj) seen
                      /\ kopf_adopt_deployment obj = Ok body
      | CreateService _ body | PatchService _ _ body =>
          exists obj, In (AdoptService obj) seen
                      /\ kopf_adopt_service obj = Ok body
      | _ => True
      end
      /\ adopted_before_use (seen ++ [c]) rest
  end.

(** A call that belongs to a create sequence over the built objects
    [built_d] and [built_s]: an adoption of one of them, or a write whose
    body is what adoption made of them.  No listing, no delete. *)
Definition sequence_call `{E : Env} (built_d : V1Deployment)
    (built_s : V1Service) (c : Call) : Prop :=
  match c with
  | AdoptDeployment obj => obj = built_d
  | AdoptService obj => obj = built_s
  | CreateDeployment body _ | PatchDeployment _ _ body =>
      kopf_adopt_deployment built_d = Ok body
  | CreateService _ body | PatchService _ _ body =>
      kopf_adopt_service built_s = Ok body
  | _ => False
  end.

(** The object written by a call carries the owner reference [o]. *)
Definition owned_by (o : V1OwnerReference) (c : Call) : Prop :=
  match c with
  | CreateDeployment body _ | PatchDeployment _ _ body =>
      In o (meta_owner_references (deployment_metadata body))
  | CreateService _ body | PatchService _ _ body =>
      In o (meta_owner_references (service_metadata body))
  | _ => True
  end.

(** [kopf.adopt] attaches the owner reference [o] to whatever it adopts. *)
Definition attaches_owner `{E : Env} (o : V1OwnerReference) : Prop :=
  (forall obj d, kopf_adopt_deployment obj = Ok d ->
                 In o (meta_owner_references (deployment_metadata d)))
  /\ (forall obj s, kopf_adopt_service obj = Ok s ->
                   In o (meta_owner_references (service_metadata s))).

(** A computation that never writes an object it has not adopted first:
    whatever its outcome, the calls it adds to the log put every written
    body after the adoption that produced it, so the body carries the owner
    reference adoption attaches. *)
Definition respects_adoption `{E : Env} {A : Type} (m : M A) : Prop :=
  forall w r w',
    m w = (r, w') ->
    exists l,
      calls w' = calls w ++ l
      /\ adopted_before_use [] l
      /\ forall o, attaches_owner o -> Forall (owned_by o) l.

(** How many create sequences a log shows: each starts by adopting the
    deployment it has built. *)
Definition sequences_started (l : list Call) : nat :=
  List.length (filter (fun c => match c with
                                | AdoptDeployment _ => true
                                | _ => false
                                end) l).

(** A status entry [(key, status)] that a create sequence of this update
    computed: under "redis" what the redis sequence returned, under
    "podInfo" what the podinfo sequence returned. *)
Definition computed_status `{E : Env} (spec : dict) (ns : string)
    (m : string * value) : Prop :=
  (fst m = "redis"
   /\ exists w1 w2,
        create_redis_deployment_and_service ns spec w1 = (Ok (snd m), w2))
  \/ (fst m = "podInfo"
      /\ exists w1 w2,
           create_podinfo_deployment_and_service ns spec w1
           = (Ok (snd m), w2)).

(** One diff item, in the words of the specification (On Update), met with
    status map [st] in world [w]: what the item merges, the status map it
    leaves and the world it leaves.  The worlds are those of the run itself:
    each lookup, teardown and create sequence starts where the previous
    action ended.
    - redis switched on and no "redis" deployment found: the redis sequence
      runs and its status is merged under "redis";
    - redis switched on and a "redis" deployment found: nothing more;
    - any other item touching redis: the deployment, then the service, is
      torn down, nothing is merged;
    - an item not touching redis, with a "podinfo" deployment found: the
      podinfo sequence runs and its status is merged under "podInfo";
    - an item not touching redis, without "podinfo" deployment: skipped. *)
Inductive item_step `{E : Env} (spec : dict) (ns : string) (item : DiffItem)
    (st : value) (w : World)
    : list (string * value) -> value -> World -> Prop :=
| step_redis_created w1 rs w2 st' :
    field item = ["spec"; "redis"; "enabled"] ->
    truthy (new_val item) = true ->
    get_deployment "redis" ns w = (Ok None, w1) ->
    create_redis_deployment_and_service ns spec w1 = (Ok rs, w2) ->
    update_method st "redis" rs = Ok st' ->
    item_step spec ns item st w [("redis", rs)] st' w2
| step_redis_present d w1 :
    field item = ["spec"; "redis"; "enabled"] ->
    truthy (new_val item) = true ->
    get_deployment "redis" ns w = (Ok (Some d), w1) ->
    item_step spec ns item st w [] st w1
| step_redis_torn_down x w1 y w2 :
    In "redis" (field item) ->
    field item <> ["spec"; "redis"; "enabled"]
    \/ truthy (new_val item) = false ->
    teardown_deployment "redis" ns w = (Ok x, w1) ->
    teardown_service "redis" ns w1 = (Ok y, w2) ->
    item_step spec ns item st w [] st w2
| step_podinfo_applied d w1 ps w2 st' :
    ~ In "redis" (field item) ->
    get_deployment "podinfo" ns w = (Ok (Some d), w1) ->
    create_podinfo_deployment_and_service ns spec w1 = (Ok ps, w2) ->
    update_method st "podInfo" ps = Ok st' ->
    item_step spec ns item st w [("podInfo", ps)] st' w2
| step_podinfo_skipped w1 :
    ~ In "redis" (field item) ->
    get_deployment "podinfo" ns w = (Ok None, w1) ->
    item_step spec ns item st w [] st w1.

(** The items of a diff, one after the other: the statuses merged, in
    order, the final status map and the final world. *)
Inductive diff_steps `{E : Env} (spec : dict) (ns : string)
    : list DiffItem -> value -> World
      -> list (string * value) -> value -> World -> Prop :=
| steps_done st w : diff_steps spec ns [] st w [] st w
| steps_item item rest st w m st1 w1 ms st' w' :
    item_step spec ns item st w m st1 w1 ->
    diff_steps spec ns rest st1 w1 ms st' w' ->
    diff_steps spec ns (item :: rest) st w (m ++ ms) st' w'.

(** The replica count and the containers a deployment object asks for. *)
Definition workload (d : V1Deployment) : option (value * list V1Container) :=
  match deployment_spec d with
  | Some s => Some (replicas s, containers (template_spec (template s)))
  | None => None
  end.

(* ================================================================== *)
(** ** Scenarios *)
(* ================================================================== *)

(** The live deployment the unit tests let the patched client return. *)
Definition test_deployment : V1Deployment :=
  {| deployment_api_version := None;
     deployment_kind := None;
     deployment_metadata :=
       {| meta_name := None; meta_namespace := None; meta_labels := None;
          meta_uid := Some "my-uid";
          meta_creation_timestamp := Some store_clock;
          meta_owner_references := [] |};
     deployment_spec := None |}.

Definition test_service : V1Service :=
  {| service_api_version := None;
     service_kind := None;
     service_metadata := object_meta None None None;
     service_spec := None |}.

Definition test_status : V1Status := {| status_message := None |}.

(** Every create is answered by a server error (500); the other methods
    answer normally. *)
Definition server_error : Patches :=
  {| on_create_deployment := Raise (ApiException 500);
     on_patch_deployment := Ok test_deployment;
     on_delete_deployment := Ok test_status;
     on_list_deployment := Ok [];
     on_create_service := Raise (ApiException 500);
     on_patch_service := Ok test_service;
     on_delete_service := Ok test_status |}.

(** The parent spec of the end-to-end scenario, with and without redis. *)
Definition spec_with_redis : dict :=
  [("image", VDict [("repository", VStr "myrepo"); ("tag", VStr "v1")]);
   ("replicaCount", VInt 2);
   ("resources",
    VDict [("cpuRequest", VStr "50m"); ("memoryLimit", VStr "64Mi")]);
   ("redis", VDict [("enabled", VBool true)])].

Definition spec_without_redis : dict :=
  [("image", VDict [("repository", VStr "myrepo"); ("tag", VStr "v1")]);
   ("replicaCount", VInt 2);
   ("resources",
    VDict [("cpuRequest", VStr "50m"); ("memoryLimit", VStr "64Mi")]);
   ("ui", VDict [("color", VStr "blue"); ("message", VStr "hi")])].

(** Three diff items: redis switched on, the image tag changed, and a
    field whose name merely contains "redis". *)
Definition enable_item : DiffItem :=
  {| oper := "change"; field := ["spec"; "redis"; "enabled"];
     old_val := VBool false; new_val := VBool true |}.

Definition tag_item : DiffItem :=
  {| oper := "change"; field := ["spec"; "image"; "tag"];
     old_val := VStr "v1"; new_val := VStr "v2" |}.

Definition config_item : DiffItem :=
  {| oper := "change"; field := ["spec"; "redisConfig"; "host"];
     old_val := VStr "a"; new_val := VStr "b" |}.

(** The in-memory cluster after a Create without redis, and after a Create
    with redis. *)
Definition created_store : Store :=
  cluster (snd (on_create (E := StoreEnv) spec_without_redis "ns"
                          (store_world empty_store))).

Definition enabled_store : Store :=
  cluster (snd (on_create (E := StoreEnv) spec_with_redis "ns"
                          (store_world empty_store))).

(** What the Create without redis returned, as the framework persists it. *)
Definition created_children : value :=
  VDict [("redis", DEFAULT_STATUS);
         ("podInfo", VDict [("created_on", VStr "Sat Jul 29 01:08:24 2023");
                            ("uid", VStr "uid-0")])].

Definition created_status : dict :=
  [("on_create", VDict [("children", created_children)])].

(** The status of the redis deployment created after podinfo's two objects. *)
Definition redis_created : value :=
  VDict [("created_on", VStr "Sat Jul 29 01:08:24 2023");
         ("uid", VStr "uid-2")].

(** What a stored deployment looks like from outside: its name, replica
    count, uid and owners. *)
Definition summary (e : string * V1Deployment)
    : option string * option value * option string * list V1OwnerReference :=
  (meta_name (deployment_metadata (snd e)),
   option_map fst (workload (snd e)),
   meta_uid (deployment_metadata (snd e)),
   meta_owner_references (deployment_metadata (snd e))).

(* ================================================================== *)
(** ** Vocabulary of the further properties *)
(* ================================================================== *)

(** Whatever its outcome, the calls a computation adds to the log all
    satisfy [P]. *)
Definition emits `{E : Env} {A : Type} (P : Call -> Prop) (m : M A) : Prop :=
  forall w r w',
    m w = (r, w') -> exists l, calls w' = calls w ++ l /\ Forall P l.

(** A call a create sequence for [name] in namespace [ns] may issue: an
    adoption, a create in [ns], or a patch of [name] in [ns]. *)
Definition sequence_scoped (name ns : string) (c : Call) : Prop :=
  match c with
  | AdoptDeployment _ | AdoptService _ => True
  | CreateDeployment _ n | CreateService n _ => n = ns
  | PatchDeployment nm n _ | PatchService nm n _ => nm = name /\ n = ns
  | _ => False
  end.

(** The calls open to the create handler: those of a podinfo or of a redis
    sequence in its namespace. *)
Definition create_handler_call (ns : string) (c : Call) : Prop :=
  sequence_scoped PODINFO_DEPLOYMENT_NAME ns c
  \/ sequence_scoped REDIS_DEPLOYMENT_NAME ns c.

(** The calls open to the update handler: those of the create handler, the
    listing of its namespace, and the two deletes of "redis". *)
Definition update_handler_call (ns : string) (c : Call) : Prop :=
  create_handler_call ns c
  \/ c = ListDeployment ns
  \/ c = DeleteDeployment "redis" ns
  \/ c = DeleteService "redis" ns.

(** Redis switched off, and the whole redis block added at once. *)
Definition disable_item : DiffItem :=
  {| oper := "change"; field := ["spec"; "redis"; "enabled"];
     old_val := VBool true; new_val := VBool false |}.

Definition subtree_item : DiffItem :=
  {| oper := "add"; field := ["spec"; "redis"];
     old_val := VNone; new_val := VDict [("enabled", VBool true)] |}.

(** A deployment as some unit tests let the patched client return it: a
    name, but neither uid nor creation timestamp. *)
Definition unstamped_deployment : V1Deployment :=
  {| deployment_api_version := None;
     deployment_kind := None;
     deployment_metadata := object_meta (Some "my-deployment") None None;
     deployment_spec := None |}.

Definition unstamped : Patches :=
  {| on_create_deployment := Ok unstamped_deployment;
     on_patch_deployment := Ok unstamped_deployment;
     on_delete_deployment := Ok test_status;
     on_list_deployment := Ok [unstamped_deployment];
     on_create_service := Ok test_service;
     on_patch_service := Ok test_service;
     on_delete_service := Ok test_status |}.

(** A create that is refused for good, behind a conflict: the create
    answers 409 and the patch answers 422. *)
Definition refused_patch : Patches :=
  {| on_create_deployment := Raise (ApiException 409);
     on_patch_deployment := Raise (ApiException 422);
     on_delete_deployment := Ok test_status;
     on_list_deployment := Ok [];
     on_create_service := Raise (ApiException 409);
     on_patch_service := Raise (ApiException 422);
     on_delete_service := Ok test_status |}.

(** The network is down: every call fails outside the API's own errors. *)
Definition unreachable : Patches :=
  {| on_create_deployment := Raise (OtherException "MaxRetryError");
     on_patch_deployment := Raise (OtherException "MaxRetryError");
     on_delete_deployment := Raise (OtherException "MaxRetryError");
     on_list_deployment := Raise (OtherException "MaxRetryError");
     on_create_service := Raise (OtherException "MaxRetryError");
     on_patch_service := Raise (OtherException "MaxRetryError");
     on_delete_service := Raise (OtherException "MaxRetryError") |}.

(** The status the redis sequence returns on the empty in-memory cluster. *)
Definition redis_on_empty : value :=
  VDict [("created_on", VStr "Sat Jul 29 01:08:24 2023");
         ("uid", VStr "uid-0")].

(** The in-memory cluster reached from outside a handler: [kopf.adopt]
    finds no owner and raises. *)
Definition OutsideHandler : Env :=
  {| Cluster := Store;
     create_namespaced_deployment := store_create_deployment;
     patch_namespaced_deployment := store_patch_deployment;
     delete_namespaced_deployment := store_delete_deployment;
     list_namespaced_deployment := store_list_deployment;
     create_namespaced_service := store_create_service;
     patch_namespaced_service := store_patch_service;
     delete_namespaced_service := store_delete_service;
     kopf_adopt_deployment := fun _ => Raise (OtherException "LookupError");
     kopf_adopt_service := fun _ => Raise (OtherException "LookupError");
     strftime_c := fun _ => "Sat Jul 29 01:08:24 2023";
     py_repr := fun _ => "<object>";
     str_upper := upper |}.

Definition outside_world : @World OutsideHandler :=
  {| cluster := (empty_store : @Cluster OutsideHandler); calls := [] |}.

(** Specs that miss something: no image tag; a [redis] key set to null. *)
Definition spec_without_tag : dict :=
  [("image", VDict [("repository", VStr "myrepo")]);
   ("replicaCount", VInt 2);
   ("resources",
    VDict [("cpuRequest", VStr "50m"); ("memoryLimit", VStr "64Mi")])].

Definition spec_null_redis : dict :=
  [("image", VDict [("repository", VStr "myrepo"); ("tag", VStr "v1")]);
   ("replicaCount", VInt 2);
   ("resources",
    VDict [("cpuRequest", VStr "50m"); ("memoryLimit", VStr "64Mi")]);
   ("redis", VNone)].

(* ================================================================== *)
(** * Properties *)
(* ================================================================== *)

(** ** The cluster gateway *)

Section GatewayFacts.
Context `{E : Env}.

Local Ltac gateway :=
  unfold create_or_update_deployment, create_or_update_service,
    teardown_deployment, teardown_service, get_deployment,
    try_except_ApiException, read_local, bind, mutate, query, log, ret, raise.

(** A successful create is the whole story: one call, its answer returned. *)
Lemma create_or_update_deployment_created name body ns w d c' :
  create_namespaced_deployment body ns (cluster w) = (Ok d, c') ->
  create_or_update_deployment name body ns w
  = (Ok d, {| cluster := c';
              calls := calls w ++ [CreateDeployment body ns] |}).
Proof. intros Hc. gateway. rewrite Hc. reflexivity. Qed.

(** On a conflict the same body is patched by name and the patch's answer,
    live object or error, is the result. *)
Lemma create_or_update_deployment_conflict name body ns w c1 r c2 :
  create_namespaced_deployment body ns (cluster w)
  = (Raise (ApiException 409), c1) ->
  patch_namespaced_deployment name ns body c1 = (r, c2) ->
  create_or_update_deployment name body ns w
  = (r, {| cluster := c2;
           calls := (calls w ++ [CreateDeployment body ns])
                    ++ [PatchDeployment name ns body] |}).
Proof.
  intros Hc Hp. gateway. rewrite Hc. simpl. rewrite Hp.
  destruct r; reflexivity.
Qed.

(** An [ApiException] with any other status is caught and dropped; the
    [return] then meets a local variable that was never bound. *)
Lemma create_or_update_deployment_dropped name body ns w status c1 :
  status <> 409%Z ->
  create_namespaced_deployment body ns (cluster w)
  = (Raise (ApiException status), c1) ->
  create_or_update_deployment name body ns w
  = (Raise (UnboundLocalError "deployment"),
     {| cluster := c1; calls := calls w ++ [CreateDeployment body ns] |}).
Proof.
  intros Hs Hc. gateway. rewrite Hc.
  destruct (Z.eqb_spec status 409) as [Heq | _]; [contradiction | reflexivity].
Qed.

Lemma create_or_update_service_created name body ns w s c' :
  create_namespaced_service ns body (cluster w) = (Ok s, c') ->
  create_or_update_service name body ns w
  = (Ok s, {| cluster := c';
              calls := calls w ++ [CreateService ns body] |}).
Proof. intros Hc. gateway. rewrite Hc. reflexivity. Qed.

Lemma create_or_update_service_conflict name body ns w c1 r c2 :
  create_namespaced_service ns body (cluster w)
  = (Raise (ApiException 409), c1) ->
  patch_namespaced_service name ns body c1 = (r, c2) ->
  create_or_update_service name body ns w
  = (r, {| cluster := c2;
           calls := (calls w ++ [CreateService ns body])
                    ++ [PatchService name ns body] |}).
Proof.
  intros Hc Hp. gateway. rewrite Hc. simpl. rewrite Hp.
  destruct r; reflexivity.
Qed.

Lemma create_or_update_service_dropped name body ns w status c1 :
  status <> 409%Z ->
  create_namespaced_service ns body (cluster w)
  = (Raise (ApiException status), c1) ->
  create_or_update_service name body ns w
  = (Raise (UnboundLocalError "service"),
     {| cluster := c1; calls := calls w ++ [CreateService ns body] |}).
Proof.
  intros Hs Hc. gateway. rewrite Hc.
  destruct (Z.eqb_spec status 409) as [Heq | _]; [contradiction | reflexivity].
Qed.

(** What [get_deployment] answers when the listing succeeds. *)
Lemma get_deployment_listed name ns w ds :
  list_namespaced_deployment ns (cluster w) = Ok ds ->
  get_deployment name ns w
  = (Ok (find (has_name name) ds),
     {| cluster := cluster w; calls := calls w ++ [ListDeployment ns] |}).
Proof. intros Hl. gateway. rewrite Hl. reflexivity. Qed.

(** C7. Tearing down a deployment or a service: when the cluster answers
    the delete with not-found (404) the call returns normally, with [None];
    any other error the delete raises, an [ApiException] of another status
    or any other exception, comes out of the call unchanged.  Either way
    exactly one delete call was issued. *)
Theorem teardown_not_found_is_success :
  forall name ns (w : World),
    (forall c',
        delete_namespaced_deployment name ns (cluster w)
        = (Raise (ApiException 404), c') ->
        teardown_deployment name ns w
        = (Ok None, {| cluster := c';
                       calls := calls w ++ [DeleteDeployment name ns] |}))
    /\ (forall e c',
           e <> ApiException 404 ->
           delete_namespaced_deployment name ns (cluster w) = (Raise e, c') ->
           teardown_deployment name ns w
           = (Raise e, {| cluster := c';
                          calls := calls w ++ [DeleteDeployment name ns] |}))
    /\ (forall c',
           delete_namespaced_service name ns (cluster w)
           = (Raise (ApiException 404), c') ->
           teardown_service name ns w
           = (Ok None, {| cluster := c';
                          calls := calls w ++ [DeleteService name ns] |}))
    /\ (forall e c',
           e <> ApiException 404 ->
           delete_namespaced_service name ns (cluster w) = (Raise e, c') ->
           teardown_service name ns w
           = (Raise e, {| cluster := c';
                          calls := calls w ++ [DeleteService name ns] |})).
Proof.
  intros name ns w. repeat split.
  - intros c' Hd. gateway. rewrite Hd. reflexivity.
  - intros e c' Hne Hd. gateway. rewrite Hd.
    destruct e as [status | | | | | |]; try reflexivity.
    destruct (Z.eqb_spec status 404) as [-> | _];
      [now contradiction Hne | reflexivity].
  - intros c' Hd. gateway. rewrite Hd. reflexivity.
  - intros e c' Hne Hd. gateway. rewrite Hd.
    destruct e as [status | | | | | |]; try reflexivity.
    destruct (Z.eqb_spec status 404) as [-> | _];
      [now contradiction Hne | reflexivity].
Qed.

(** A delete that succeeds hands back the cluster's answer. *)
Lemma teardown_deployment_deleted name ns w s c' :
  delete_namespaced_deployment name ns (cluster w) = (Ok s, c') ->
  teardown_deployment name ns w
  = (Ok (Some s), {| cluster := c';
                     calls := calls w ++ [DeleteDeployment name ns] |}).
Proof. intros Hd. gateway. rewrite Hd. reflexivity. Qed.

End GatewayFacts.

(** On the in-memory cluster: tearing down a deployment and a service that
    do not exist succeeds, leaves the store as it was, and can be repeated. *)
Lemma teardown_not_found_is_success_witness :
  teardown_deployment (E := StoreEnv) "redis" "ns" (store_world empty_store)
  = (Ok None, store_logged empty_store [DeleteDeployment "redis" "ns"])
  /\ teardown_service (E := StoreEnv) "redis" "ns"
       (store_logged empty_store [DeleteDeployment "redis" "ns"])
     = (Ok None, store_logged empty_store [DeleteDeployment "redis" "ns";
                                           DeleteService "redis" "ns"]).
Proof.
  split.
  - exact (proj1 (teardown_not_found_is_success (E := StoreEnv) "redis" "ns"
                    (store_world empty_store)) empty_store eq_refl).
  - exact (proj1 (proj2 (proj2
             (teardown_not_found_is_success (E := StoreEnv) "redis" "ns"
                (store_logged empty_store [DeleteDeployment "redis" "ns"]))))
             empty_store eq_refl).
Defined.

(** C1 (the code departs from it). With the cluster answering every create
    by a server error, status 500, neither [create_or_update_deployment]
    nor [create_or_update_service] lets that error out: the handler catches
    it, does nothing for a status other than 409, and the final [return]
    fails on the unbound local, so the caller sees an [UnboundLocalError]
    and the cluster's error is lost. *)
Theorem create_or_update_loses_server_error :
  let body := deploy_obj (E := PatchedEnv server_error) "podinfo" "ns"
                (VStr "myrepo") (VStr "v1") (VInt 2)
                {| requests := [("cpu", VStr "50m")];
                   limits := [("memory", VStr "64Mi")] |}
                PODINFO_PORT None in
  let svc := svc_obj "podinfo" "ns" PODINFO_PORT in
  create_or_update_deployment (E := PatchedEnv server_error)
      "podinfo" body "ns" (patched_world server_error)
  = (Raise (UnboundLocalError "deployment"),
     patched_logged server_error [CreateDeployment body "ns"])
  /\ create_or_update_service (E := PatchedEnv server_error)
        "podinfo" svc "ns" (patched_world server_error)
     = (Raise (UnboundLocalError "service"),
        patched_logged server_error [CreateService "ns" svc])
  /\ Raise (A := V1Deployment) (UnboundLocalError "deployment")
     <> Raise (ApiException 500).
Proof.
  cbv zeta. split; [| split].
  - apply (create_or_update_deployment_dropped (E := PatchedEnv server_error))
      with (status := 500%Z); [discriminate | reflexivity].
  - apply (create_or_update_service_dropped (E := PatchedEnv server_error))
      with (status := 500%Z); [discriminate | reflexivity].
  - discriminate.
Qed.

(** ** The create sequence *)

Section SequenceFacts.
Context `{E : Env}.

(** A sequenced computation either got past its first step or stopped
    there. *)
Lemma bind_inv {A B : Type} (m : M A) (k : A -> M B) w r w' :
  bind m k w = (r, w') ->
  (exists a w1, m w = (Ok a, w1) /\ k a w1 = (r, w'))
  \/ (exists e, m w = (Raise e, w') /\ r = Raise e).
Proof.
  unfold bind. destruct (m w) as [[a | e] w1]; intros H.
  - left. eauto.
  - right. inversion H; subst. eauto.
Qed.

Lemma external_inv {A : Type} (c : Call) (x : Result A) w r w' :
  external c x w = (r, w') -> r = x /\ calls w' = calls w ++ [c].
Proof. unfold external, log. intros H. inversion H; subst. auto. Qed.

Lemma list_two {A : Type} (l : list A) (a b : A) :
  (l ++ [a]) ++ [b] = l ++ [a; b].
Proof. now rewrite <- app_assoc. Qed.

(** The gateway issues a create and, at most, one patch of the same body. *)
Lemma create_or_update_deployment_calls name body ns w r w' :
  create_or_update_deployment name body ns w = (r, w') ->
  calls w' = calls w ++ [CreateDeployment body ns]
  \/ calls w' = calls w ++ [CreateDeployment body ns;
                            PatchDeployment name ns body].
Proof.
  unfold create_or_update_deployment, try_except_ApiException, read_local,
    bind, mutate, ret, raise.
  destruct (create_namespaced_deployment body ns (cluster w))
    as [[d | [status | | | | | |]] c1]; simpl;
    try (intros H; inversion H; subst; simpl; auto; fail).
  destruct (status =? 409)%Z; simpl.
  - destruct (patch_namespaced_deployment name ns body c1) as [[d | e] c2];
      simpl; intros H; inversion H; subst; simpl; rewrite list_two; auto.
  - intros H; inversion H; subst; simpl; auto.
Qed.

Lemma create_or_update_service_calls name body ns w r w' :
  create_or_update_service name body ns w = (r, w') ->
  calls w' = calls w ++ [CreateService ns body]
  \/ calls w' = calls w ++ [CreateService ns body;
                            PatchService name ns body].
Proof.
  unfold create_or_update_service, try_except_ApiException, read_local,
    bind, mutate, ret, raise.
  destruct (create_namespaced_service ns body (cluster w))
    as [[d | [status | | | | | |]] c1]; simpl;
    try (intros H; inversion H; subst; simpl; auto; fail).
  destruct (status =? 409)%Z; simpl.
  - destruct (patch_namespaced_service name ns body c1) as [[d | e] c2];
      simpl; intros H; inversion H; subst; simpl; rewrite list_two; auto.
  - intros H; inversion H; subst; simpl; auto.
Qed.

(** The calls of one run of the create sequence, whatever its outcome: the
    two adoptions come first, each on the object just built; the gateway
    then receives the adopted deployment, then the adopted service. *)
Lemma create_sequence_calls name ns repo tag reps res port env w r w' :
  create_deployment_and_service name ns repo tag reps res (Some port) env w
  = (r, w') ->
  let built_d := deploy_obj name ns repo tag reps res port env in
  let built_s := svc_obj name ns port in
  exists l, calls w' = calls w ++ l
    /\ (l = [AdoptDeployment built_d]
        \/ l = [AdoptDeployment built_d; AdoptService built_s]
        \/ exists d s ld ls,
             kopf_adopt_deployment built_d = Ok d
             /\ kopf_adopt_service built_s = Ok s
             /\ l = AdoptDeployment built_d :: AdoptService built_s
                      :: ld ++ ls
             /\ (ld = [CreateDeployment d ns]
                 \/ ld = [CreateDeployment d ns; PatchDeployment name ns d])
             /\ (ls = []
                 \/ ls = [CreateService ns s]
                 \/ ls = [CreateService ns s; PatchService name ns s])).
Proof.
  intros H built_d built_s. unfold create_deployment_and_service in H.
  fold built_d built_s in H.
  apply bind_inv in H as [(d & w1 & Had & H) | (e & Had & _)];
    apply external_inv in Had as [Had Hw1];
    [| exists [AdoptDeployment built_d]; auto].
  apply bind_inv in H as [(s & w2 & Has & H) | (e & Has & _)];
    apply external_inv in Has as [Has Hw2]; rewrite Hw1, list_two in Hw2;
    [| exists [AdoptDeployment built_d; AdoptService built_s]; auto].
  assert (Hshape : forall ld ls, calls w' = (calls w2 ++ ld) ++ ls ->
            calls w' = calls w ++ AdoptDeployment built_d
                         :: AdoptService built_s :: ld ++ ls).
  { intros ld ls ->. rewrite Hw2, <- !app_assoc. reflexivity. }
  apply bind_inv in H as [(dep & w3 & Hd & H) | (e & Hd & _)];
    apply create_or_update_deployment_calls in Hd.
  - apply bind_inv in H as [(svc & w4 & Hs & H) | (e & Hs & _)];
      apply create_or_update_service_calls in Hs.
    + assert (Hw' : w' = w4).
      { unfold bind, ret, raise in H.
        destruct (meta_creation_timestamp (deployment_metadata dep));
          inversion H; reflexivity. }
      subst w4.
      destruct Hd as [Hd | Hd], Hs as [Hs | Hs]; rewrite Hd in Hs;
        apply Hshape in Hs; eexists; (split; [exact Hs |]);
        right; right; exists d, s; do 2 eexists; repeat split; eauto.
    + destruct Hd as [Hd | Hd], Hs as [Hs | Hs]; rewrite Hd in Hs;
        apply Hshape in Hs; eexists; (split; [exact Hs |]);
        right; right; exists d, s; do 2 eexists; repeat split; eauto.
  - destruct Hd as [Hd | Hd];
      rewrite <- (app_nil_r (calls w2 ++ _)) in Hd;
      apply Hshape in Hd; eexists; (split; [exact Hd |]);
      right; right; exists d, s; do 2 eexists; repeat split; eauto.
Qed.

Lemma adopted_weaken seen seen' l :
  (forall c, In c seen -> In c seen') ->
  adopted_before_use seen l -> adopted_before_use seen' l.
Proof.
  revert seen seen'. induction l as [| c rest IH]; intros seen seen' Hin;
    [trivial |].
  simpl. intros [Hc Hrest]. split.
  - destruct c; trivial; destruct Hc as (obj & Ho & Ha); eauto.
  - apply IH with (seen := seen ++ [c]); [| exact Hrest].
    intros x Hx. apply in_app_iff in Hx. apply in_app_iff. intuition.
Qed.

Lemma adopted_app seen l1 l2 :
  adopted_before_use seen l1 ->
  adopted_before_use (seen ++ l1) l2 ->
  adopted_before_use seen (l1 ++ l2).
Proof.
  revert seen. induction l1 as [| c rest IH]; intros seen H1 H2.
  - now rewrite app_nil_r in H2.
  - destruct H1 as [Hc Hrest]. simpl. split; [exact Hc |].
    apply IH; [exact Hrest |]. now rewrite <- app_assoc.
Qed.

(** Calls that write nothing need no adoption. *)
Lemma adopted_no_write seen l :
  Forall (fun c => is_write c = false) l -> adopted_before_use seen l.
Proof.
  revert seen. induction l as [| c rest IH]; intros seen Hl; [exact I |].
  inversion Hl; subst. simpl. split; [| now apply IH].
  destruct c; try exact I; discriminate.
Qed.

(** In every run of the create sequence each call belongs to the sequence,
    each written body comes after the adoption that produced it, and so
    carries the owner reference adoption attaches.  Without a port the
    sequence has raised before its first call. *)
Lemma create_sequence_adopts name ns repo tag reps res expose_port env
    w r w' :
  create_deployment_and_service name ns repo tag reps res expose_port env w
  = (r, w') ->
  exists l,
    calls w' = calls w ++ l
    /\ match expose_port with
       | Some port =>
           Forall (sequence_call
                     (deploy_obj name ns repo tag reps res port env)
                     (svc_obj name ns port)) l
       | None => l = []
       end
    /\ adopted_before_use [] l
    /\ forall o, attaches_owner o -> Forall (owned_by o) l.
Proof.
  intros H. destruct expose_port as [port |].
  2:{ unfold create_deployment_and_service, raise in H.
      inversion H; subst. exists []. rewrite app_nil_r.
      split; [reflexivity |]. split; [reflexivity |].
      split; [exact I | intros; constructor]. }
  apply create_sequence_calls in H. cbv zeta in H.
  destruct H as (l & Hl & Hshape). exists l. split; [exact Hl |].
  destruct Hshape as [-> | [-> | (d & s & ld & ls & Hd & Hs & -> & Hld & Hls)]].
  - repeat split; intros; repeat constructor; simpl; auto.
  - repeat split; intros; repeat constructor; simpl; auto.
  - destruct Hld as [-> | ->], Hls as [-> | [-> | ->]]; simpl;
      (split; [repeat constructor; simpl; auto |]);
      (split; [simpl; intuition eauto 6 |]);
      intros o [Hod Hos]; repeat constructor; simpl; eauto.
Qed.

(** On a cooperative cluster the sequence runs to its end: it returns a
    status whose uid is the live deployment's, hence not empty; the adopted
    deployment was sent in a create call; and every call is about the object
    named [name]. *)
Lemma create_sequence_succeeds Inv name ns repo tag reps res port env w :
  healthy Inv -> Inv (cluster w) ->
  exists st w' l body,
    create_deployment_and_service name ns repo tag reps res (Some port) env w
    = (Ok st, w')
    /\ Inv (cluster w')
    /\ calls w' = calls w ++ l
    /\ kopf_adopt_deployment (deploy_obj name ns repo tag reps res port env)
       = Ok body
    /\ In (CreateDeployment body ns) l
    /\ Forall (fun c => call_target c = Some name) l
    /\ exists created u,
         st = VDict [("created_on", VStr created); ("uid", VStr u)]
         /\ u <> "".
Proof.
  intros Hh Hinv.
  set (built_d := deploy_obj name ns repo tag reps res port env).
  set (built_s := svc_obj name ns port).
  destruct (adopt_deployment_ok Hh built_d) as (d & Had & Hnd).
  destruct (adopt_service_ok Hh built_s) as (s & Has & Hns).
  change (meta_name (deployment_metadata d) = Some name) in Hnd.
  change (meta_name (service_metadata s) = Some name) in Hns.
  set (w2 := log (AdoptService built_s) (log (AdoptDeployment built_d) w)).
  assert (Hd : exists dep w3 ld,
             create_or_update_deployment name d ns w2 = (Ok dep, w3)
             /\ live dep /\ Inv (cluster w3)
             /\ calls w3 = calls w2 ++ CreateDeployment d ns :: ld
             /\ Forall (fun c => call_target c = Some name) ld).
  { destruct (create_deployment_ok Hh d ns (c := cluster w2) Hinv Hnd)
      as [(dep & c' & Hc & Hlive & Hi)
         | (c' & Hc & dep & c'' & Hp & Hlive & Hi)].
    - exists dep. eexists. exists [].
      rewrite (create_or_update_deployment_created name d ns w2 _ _ Hc).
      split; [reflexivity |]. split; [exact Hlive |]. split; [exact Hi |].
      split; [reflexivity | constructor].
    - exists dep. eexists. exists [PatchDeployment name ns d].
      rewrite (create_or_update_deployment_conflict name d ns w2 _ _ _ Hc Hp).
      split; [reflexivity |]. split; [exact Hlive |]. split; [exact Hi |].
      simpl calls. rewrite list_two. split; [reflexivity |].
      repeat constructor. }
  destruct Hd as (dep & w3 & ld & Hd & Hlive & Hi3 & Hw3 & Hld).
  assert (Hs : exists svc w4 ls,
             create_or_update_service name s ns w3 = (Ok svc, w4)
             /\ Inv (cluster w4)
             /\ calls w4 = calls w3 ++ ls
             /\ Forall (fun c => call_target c = Some name) ls).
  { destruct (create_service_ok Hh s ns (c := cluster w3) Hi3 Hns)
      as [(svc & c' & Hc & Hi) | (c' & Hc & svc & c'' & Hp & Hi)].
    - exists svc. eexists. exists [CreateService ns s].
      rewrite (create_or_update_service_created name s ns w3 _ _ Hc).
      split; [reflexivity |]. repeat split; auto.
    - exists svc. eexists.
      exists [CreateService ns s; PatchService name ns s].
      rewrite (create_or_update_service_conflict name s ns w3 _ _ _ Hc Hp).
      split; [reflexivity |]. simpl calls. rewrite list_two.
      repeat split; auto. }
  destruct Hs as (svc & w4 & ls & Hs & Hi4 & Hw4 & Hls).
  destruct Hlive as [(u & Hu & Hne) Hts].
  destruct (meta_creation_timestamp (deployment_metadata dep))
    as [t |] eqn:Ht; [| contradiction].
  exists (VDict [("created_on", VStr (strftime_c t)); ("uid", VStr u)]), w4.
  exists (AdoptDeployment built_d :: AdoptService built_s
            :: CreateDeployment d ns :: ld ++ ls), d.
  split.
  { unfold create_deployment_and_service. fold built_d built_s.
    unfold bind at 1. unfold external at 1. rewrite Had.
    unfold bind at 1. unfold external at 1. rewrite Has.
    fold w2. unfold bind at 1. rewrite Hd.
    unfold bind at 1. rewrite Hs.
    unfold bind, ret. rewrite Ht. unfold uid_value. rewrite Hu. reflexivity. }
  split; [exact Hi4 |]. split.
  { rewrite Hw4, Hw3. unfold w2, log. simpl.
    rewrite <- !app_assoc. reflexivity. }
  split; [exact Had |]. split; [simpl; auto |]. split.
  { repeat constructor; simpl; auto.
    apply Forall_app. split; assumption. }
  eauto.
Qed.

End SequenceFacts.

(** ** The two concrete environments are cooperative *)

Lemma fresh_uid_not_empty n : fresh_uid n <> "".
Proof. unfold fresh_uid. simpl. discriminate. Qed.

Lemma existsb_find {A : Type} (f : A -> bool) (l : list A) :
  existsb f l = true -> exists x, find f l = Some x.
Proof.
  induction l as [| a rest IH]; simpl; [discriminate |].
  destruct (f a); [eauto | exact IH].
Qed.

Lemma store_healthy : healthy (E := StoreEnv) store_live.
Proof.
  constructor.
  - intros obj. exists (own_deployment parent_reference obj). now split.
  - intros obj. exists (own_service parent_reference obj). now split.
  - intros body ns name c Hinv Hname. simpl.
    unfold store_create_deployment. rewrite Hname.
    destruct (existsb (held deployment_metadata ns name) (store_deployments c))
      eqn:Hex.
    + right. exists c. split; [reflexivity |].
      unfold store_patch_deployment.
      destruct (existsb_find _ _ Hex) as ([ns' old] & Hfind). rewrite Hfind.
      assert (Hold : live old).
      { apply find_some in Hfind as [Hin _].
        exact (proj1 (Forall_forall _ _) Hinv _ Hin). }
      assert (Hnew : live (live_deployment body
                             (meta_uid (deployment_metadata old))
                             (meta_creation_timestamp
                                (deployment_metadata old)))) by exact Hold.
      do 2 eexists. split; [reflexivity |]. split; [exact Hnew |].
      unfold store_live. simpl. apply Forall_map.
      apply Forall_forall. intros e He.
      destruct (held deployment_metadata ns name e); [exact Hnew |].
      exact (proj1 (Forall_forall _ _) Hinv _ He).
    + left. do 2 eexists. split; [reflexivity |].
      assert (Hnew : live (live_deployment body
                             (Some (fresh_uid (store_created c)))
                             (Some store_clock))).
      { split; simpl; [| discriminate].
        eexists. split; [reflexivity | apply fresh_uid_not_empty]. }
      split; [exact Hnew |].
      unfold store_live. simpl. apply Forall_app. split; [exact Hinv |].
      constructor; [exact Hnew | constructor].
  - intros body ns name c Hinv Hname. simpl.
    unfold store_create_service. rewrite Hname.
    destruct (existsb (held service_metadata ns name) (store_services c))
      eqn:Hex.
    + right. exists c. split; [reflexivity |].
      unfold store_patch_service.
      destruct (existsb_find _ _ Hex) as ([ns' old] & Hfind). rewrite Hfind.
      do 2 eexists. split; [reflexivity | exact Hinv].
    + left. do 2 eexists. split; [reflexivity | exact Hinv].
Qed.

Lemma store_live_empty : store_live empty_store.
Proof. constructor. Qed.

(** Patched clients are cooperative when the patched creates and patches
    return objects and the deployments returned are live. *)
Lemma patched_healthy p d d' s s' :
  on_create_deployment p = Ok d -> live d ->
  on_patch_deployment p = Ok d' -> live d' ->
  on_create_service p = Ok s ->
  on_patch_service p = Ok s' ->
  healthy (E := PatchedEnv p) (fun _ => True).
Proof.
  intros Hcd Hd Hpd Hd' Hcs Hps. constructor.
  - intros obj. exists (own_deployment parent_reference obj). now split.
  - intros obj. exists (own_service parent_reference obj). now split.
  - intros body ns name c _ _. left. exists d, c. simpl. rewrite Hcd. auto.
  - intros body ns name c _ _. left. exists s, c. simpl. rewrite Hcs. auto.
Qed.

(** ** The handlers *)

Section HandlerFacts.
Context `{E : Env}.

Lemma py_in_spec x t : py_in x t = true <-> In x t.
Proof.
  unfold py_in. rewrite existsb_exists. split.
  - intros (y & Hy & Heq). apply String.eqb_eq in Heq. now subst.
  - intros Hin. exists x. split; [exact Hin | apply String.eqb_refl].
Qed.

Lemma tuple_eqb_refl t : tuple_eqb t t = true.
Proof.
  induction t as [| a rest IH]; simpl; [reflexivity |].
  now rewrite String.eqb_refl, IH.
Qed.

Lemma tuple_eqb_eq t1 t2 : tuple_eqb t1 t2 = true <-> t1 = t2.
Proof.
  revert t2. induction t1 as [| a r1 IH]; intros [| b r2]; simpl;
    try (split; [discriminate | discriminate]); [tauto |].
  rewrite andb_true_iff, String.eqb_eq, IH. split.
  - intros [-> ->]. reflexivity.
  - intros H. inversion H. auto.
Qed.

Lemma dict_lookup_set_same d k v : dict_lookup k (dict_set d k v) = Some v.
Proof.
  induction d as [| [k' v'] rest IH]; simpl.
  - now rewrite String.eqb_refl.
  - destruct (k' =? k) eqn:Hk; simpl; now rewrite Hk.
Qed.

Lemma dict_lookup_set_other d k k' v :
  k <> k' -> dict_lookup k (dict_set d k' v) = dict_lookup k d.
Proof.
  intros Hne. induction d as [| [k0 v0] rest IH]; simpl.
  - destruct (String.eqb_spec k' k); [congruence | reflexivity].
  - destruct (String.eqb_spec k0 k') as [-> | Hk0]; simpl.
    + destruct (String.eqb_spec k' k); [congruence | reflexivity].
    + destruct (k0 =? k); [reflexivity | exact IH].
Qed.

(** What [update] leaves in the map: the new entry under its key, every
    other key as before. *)
Lemma update_method_lookup st k v st' :
  update_method st k v = Ok st' ->
  value_lookup k st' = Some v
  /\ forall k', k' <> k -> value_lookup k' st' = value_lookup k' st.
Proof.
  destruct st; simpl; try discriminate. intros H. inversion H; subst. simpl.
  split; [apply dict_lookup_set_same |].
  intros k' Hne. now apply dict_lookup_set_other.
Qed.

(** [upper] on the whole alphabet, and on the characters next to it. *)
Example upper_alphabet :
  upper "abcdefghijklmnopqrstuvwxyz" = "ABCDEFGHIJKLMNOPQRSTUVWXYZ".
Proof. reflexivity. Qed.

Example upper_keeps_others :
  upper "ABCXYZ 0123456789 _-. `{|}~ @[]^/"
  = "ABCXYZ 0123456789 _-. `{|}~ @[]^/".
Proof. reflexivity. Qed.

(** Character by character: a letter a-z goes 32 code points down, any
    other character stays, and the length is kept. *)
Lemma upper_spec s :
  String.length (upper s) = String.length s
  /\ forall i c,
       String.get i s = Some c ->
       String.get i (upper s)
       = Some (if (97 <=? nat_of_ascii c)%nat && (nat_of_ascii c <=? 122)%nat
               then ascii_of_nat (nat_of_ascii c - 32)
               else c).
Proof.
  induction s as [| a rest [IHlen IHget]]; simpl.
  - split; [reflexivity | discriminate].
  - split; [now rewrite IHlen |].
    intros [| i] c; simpl.
    + intros H. inversion H; subst. reflexivity.
    + apply IHget.
Qed.

(** C6. The podinfo environment list, for every spec (whatever it says
    about redis): when [ui] is absent it is the single fixed variable
    [PODINFO_CACHE_SERVER=tcp://redis:6379]; when [ui] is a mapping it has
    one more element than [ui] has keys, the fixed variable stands first,
    and the key at position [i] of [ui] yields, at position [i+1], the
    variable named PODINFO_UI_ followed by what [str.upper] returns for the
    key, holding that key's value.  For a key of ASCII characters, where
    [str.upper] turns a-z into A-Z and keeps the rest, the name is
    PODINFO_UI_ followed by [upper] of the key. *)
Theorem podinfo_environment :
  forall spec : dict,
    let fixed := {| env_name := "PODINFO_CACHE_SERVER";
                    env_value := VStr "tcp://redis:6379" |} in
    (dict_lookup "ui" spec = None -> env_vars spec = Ok [fixed])
    /\ (forall ui,
           dict_lookup "ui" spec = Some (VDict ui) ->
           exists vars,
             env_vars spec = Ok vars
             /\ List.length vars = S (List.length ui)
             /\ nth_error vars 0 = Some fixed
             /\ (forall i k v,
                    nth_error ui i = Some (k, v) ->
                    nth_error vars (S i)
                    = Some {| env_name := "PODINFO_UI_" ++ str_upper k;
                              env_value := v |})
             /\ ((forall s, is_ascii s = true -> str_upper s = upper s) ->
                 forall i k v,
                   nth_error ui i = Some (k, v) ->
                   is_ascii k = true ->
                   nth_error vars (S i)
                   = Some {| env_name := "PODINFO_UI_" ++ upper k;
                             env_value := v |})).
Proof.
  intros spec fixed. unfold env_vars, ui_vars, dict_get. split.
  - intros ->. reflexivity.
  - intros ui ->. simpl. eexists. split; [reflexivity |].
    split; [simpl; now rewrite length_map |]. split; [reflexivity |].
    assert (Hnth : forall i k v,
               nth_error ui i = Some (k, v) ->
               nth_error
                 (default_env_vars
                    ++ map (fun kv =>
                              {| env_name := "PODINFO_UI_" ++ str_upper (fst kv);
                                 env_value := snd kv |}) ui) (S i)
               = Some {| env_name := "PODINFO_UI_" ++ str_upper k;
                         env_value := v |}).
    { intros i k v Hi. simpl. rewrite nth_error_map, Hi. reflexivity. }
    split; [exact Hnth |].
    intros Hupper i k v Hi Hk. rewrite <- (Hupper k Hk).
    exact (Hnth i k v Hi).
Qed.

(** C10. An update whose status has no "on_create" entry, or whose
    "on_create" entry has no "children", raises [KeyError] at once: the
    world is the one the handler started in, so no call was issued and the
    cluster is untouched, whatever the diff. *)
Theorem on_update_requires_create_status :
  forall spec status ns diff (w : World),
    (dict_lookup "on_create" status = None ->
     on_update spec status ns diff w = (Raise (KeyError "on_create"), w))
    /\ (forall oc,
           dict_lookup "on_create" status = Some (VDict oc) ->
           dict_lookup "children" oc = None ->
           on_update spec status ns diff w = (Raise (KeyError "children"), w)).
Proof.
  intros spec status ns diff w. unfold on_update, bind, lift, getitem. split.
  - intros ->. reflexivity.
  - intros oc -> ->. reflexivity.
Qed.

(** C2, as the code has it. A diff item goes to the redis branch exactly
    when one segment of its field path is the string "redis" itself, and to
    the podinfo branch otherwise. *)
Theorem redis_branch_by_segment :
  forall spec ns item st (w : World),
    (In "redis" (field item) ->
     on_update_item spec ns item st w
     = redis_branch spec ns (field item) (new_val item) st w)
    /\ (~ In "redis" (field item) ->
        on_update_item spec ns item st w = podinfo_branch spec ns st w).
Proof.
  intros spec ns item st w. unfold on_update_item. split; intros H.
  - apply py_in_spec in H. now rewrite H.
  - destruct (py_in "redis" (field item)) eqn:Hin; [| reflexivity].
    apply py_in_spec in Hin. contradiction.
Qed.

End HandlerFacts.

(** ** The update handler, item by item *)

Section UpdateFacts.
Context `{E : Env}.

(** C3. A diff item whose field path is exactly (spec, redis, enabled) and
    whose new value is true, once the deployments of the namespace have
    been listed: if none is named "redis", the redis create sequence runs
    next and, when it returns a status, the item's result is the status map
    updated under the key "redis" (which then reads back that status); if
    one is named "redis", the item ends right after the listing, the
    status map as it was and the cluster untouched: no adopt, create or
    patch call is issued. *)
Theorem enable_redis_creates_once :
  forall spec ns item st (w : World) ds,
    field item = ["spec"; "redis"; "enabled"] ->
    truthy (new_val item) = true ->
    list_namespaced_deployment ns (cluster w) = Ok ds ->
    let w1 := {| cluster := cluster w;
                 calls := calls w ++ [ListDeployment ns] |} in
    (find (has_name "redis") ds = None ->
     forall r w2,
       create_redis_deployment_and_service ns spec w1 = (r, w2) ->
       on_update_item spec ns item st w
       = (match r with
          | Ok redis_status => update_method st "redis" redis_status
          | Raise e => Raise e
          end, w2)
       /\ forall redis_status st',
            r = Ok redis_status ->
            update_method st "redis" redis_status = Ok st' ->
            value_lookup "redis" st' = Some redis_status)
    /\ (forall d,
           find (has_name "redis") ds = Some d ->
           on_update_item spec ns item st w = (Ok st, w1)).
Proof.
  intros spec ns item st w ds Hfield Hnew Hlist w1.
  assert (Hroute :
            on_update_item spec ns item st w
            = (found <- get_deployment "redis" ns ;;
               match found with
               | None =>
                   redis_status <-
                     create_redis_deployment_and_service ns spec ;;
                   lift (update_method st "redis" redis_status)
               | Some _ => ret st
               end) w).
  { unfold on_update_item, redis_branch. rewrite Hfield, Hnew. reflexivity. }
  rewrite Hroute. clear Hroute.
  pose proof (get_deployment_listed "redis" ns w ds Hlist) as Hget.
  fold w1 in Hget. split.
  - intros Hnone r w2 Hseq. split.
    + unfold bind at 1. rewrite Hget, Hnone.
      unfold bind, lift. rewrite Hseq. destruct r; reflexivity.
    + intros rs st' _ Hup. now apply update_method_lookup in Hup.
  - intros d Hsome. unfold bind at 1. rewrite Hget, Hsome. reflexivity.
Qed.

(** C4. A diff item no segment of whose field path is "redis", once the
    deployments of the namespace have been listed: if none is named
    "podinfo" the item ends right after the listing, with the status map
    and the cluster as they were, so no adopt, create or patch call is
    issued; only if one is named "podinfo" does the podinfo sequence run,
    its status then being merged under "podInfo". *)
Theorem podinfo_update_guard :
  forall spec ns item st (w : World) ds,
    ~ In "redis" (field item) ->
    list_namespaced_deployment ns (cluster w) = Ok ds ->
    let w1 := {| cluster := cluster w;
                 calls := calls w ++ [ListDeployment ns] |} in
    (find (has_name "podinfo") ds = None ->
     on_update_item spec ns item st w = (Ok st, w1))
    /\ (forall d,
           find (has_name "podinfo") ds = Some d ->
           forall r w2,
             create_podinfo_deployment_and_service ns spec w1 = (r, w2) ->
             on_update_item spec ns item st w
             = (match r with
                | Ok podinfo_status => update_method st "podInfo" podinfo_status
                | Raise e => Raise e
                end, w2)).
Proof.
  intros spec ns item st w ds Hfield Hlist w1.
  unfold on_update_item.
  destruct (py_in "redis" (field item)) eqn:Hin;
    [apply py_in_spec in Hin; contradiction |].
  unfold podinfo_branch.
  pose proof (get_deployment_listed "podinfo" ns w ds Hlist) as Hget.
  fold w1 in Hget. split.
  - intros Hnone. unfold bind at 1. rewrite Hget, Hnone. reflexivity.
  - intros d Hsome r w2 Hseq. unfold bind at 1. rewrite Hget, Hsome.
    unfold bind, lift. rewrite Hseq. destruct r; reflexivity.
Qed.

End UpdateFacts.

(** ** The update handler, over the whole diff *)

Section LoopFacts.
Context `{E : Env}.

Lemma get_deployment_calls name ns w r w' :
  get_deployment name ns w = (r, w') ->
  calls w' = calls w ++ [ListDeployment ns].
Proof.
  unfold get_deployment, bind, query, log, ret.
  destruct (list_namespaced_deployment ns (cluster w));
    intros H; inversion H; reflexivity.
Qed.

Lemma teardown_deployment_calls name ns w r w' :
  teardown_deployment name ns w = (r, w') ->
  calls w' = calls w ++ [DeleteDeployment name ns].
Proof.
  unfold teardown_deployment, try_except_ApiException, bind, mutate, ret, raise.
  destruct (delete_namespaced_deployment name ns (cluster w))
    as [[s | [status | | | | | |]] c1]; simpl;
    try (intros H; inversion H; reflexivity).
  destruct (negb (status =? 404)%Z); intros H; inversion H; reflexivity.
Qed.

Lemma teardown_service_calls name ns w r w' :
  teardown_service name ns w = (r, w') ->
  calls w' = calls w ++ [DeleteService name ns].
Proof.
  unfold teardown_service, try_except_ApiException, bind, mutate, ret, raise.
  destruct (delete_namespaced_service name ns (cluster w))
    as [[s | [status | | | | | |]] c1]; simpl;
    try (intros H; inversion H; reflexivity).
  destruct (negb (status =? 404)%Z); intros H; inversion H; reflexivity.
Qed.

(** Every run of the create sequence shows in the log as one sequence. *)
Lemma create_sequence_started name ns repo tag reps res port env w r w' :
  create_deployment_and_service name ns repo tag reps res (Some port) env w
  = (r, w') ->
  exists l, calls w' = calls w ++ l /\ sequences_started l = 1.
Proof.
  intros H. apply create_sequence_calls in H. cbv zeta in H.
  destruct H as (l & Hl & Hshape). exists l. split; [exact Hl |].
  destruct Hshape as [-> | [-> | (d & s & ld & ls & _ & _ & -> & Hld & Hls)]];
    [reflexivity | reflexivity |].
  destruct Hld as [-> | ->], Hls as [-> | [-> | ->]]; reflexivity.
Qed.

(** A podinfo status can only come out of the create sequence. *)
Lemma create_podinfo_inv ns spec w ps w' :
  create_podinfo_deployment_and_service ns spec w = (Ok ps, w') ->
  exists repo tag res env,
    create_deployment_and_service PODINFO_DEPLOYMENT_NAME ns repo tag
      (dict_get spec "replicaCount" VNone) res (Some PODINFO_PORT) (Some env) w
    = (Ok ps, w').
Proof.
  unfold create_podinfo_deployment_and_service.
  intros H.
  do 5 (apply bind_inv in H as [(? & ? & Hstep & H) | (? & _ & Habs)];
        [unfold lift in Hstep; inversion Hstep; subst; clear Hstep
        | discriminate Habs]).
  eauto.
Qed.

Lemma merge_all_app st ms1 st1 ms2 :
  merge_all st ms1 = Ok st1 ->
  merge_all st (ms1 ++ ms2) = merge_all st1 ms2.
Proof.
  revert st. induction ms1 as [| [k v] rest IH]; intros st; simpl.
  - intros H. now inversion H.
  - destruct (update_method st k v); [apply IH | discriminate].
Qed.

Lemma sequences_started_app l1 l2 :
  sequences_started (l1 ++ l2) = sequences_started l1 + sequences_started l2.
Proof. unfold sequences_started. now rewrite filter_app, length_app. Qed.

(** The loop body ends normally exactly as one step of the specification
    does, between the same status maps and the same worlds. *)
Lemma on_update_item_step spec ns item st w st' w' :
  on_update_item spec ns item st w = (Ok st', w')
  <-> exists m, item_step spec ns item st w m st' w'.
Proof.
  split.
  - unfold on_update_item.
    destruct (py_in "redis" (field item)) eqn:Hin.
    + apply py_in_spec in Hin. unfold redis_branch.
      destruct (tuple_eqb ["spec"; "redis"; "enabled"] (field item)
                && truthy (new_val item)) eqn:Hcond.
      * apply andb_true_iff in Hcond as [Hfield Hnew].
        apply tuple_eqb_eq in Hfield. symmetry in Hfield.
        intros H.
        apply bind_inv in H as [(found & w1 & Hget & H) | (? & _ & Habs)];
          [| discriminate Habs].
        destruct found as [d |].
        -- inversion H; subst. exists []. eapply step_redis_present; eauto.
        -- apply bind_inv in H as [(rs & w2 & Hseq & H) | (? & _ & Habs)];
             [| discriminate Habs].
           unfold lift in H. inversion H as [[Hup Hw]]. subst w2.
           exists [("redis", rs)]. eapply step_redis_created; eauto.
      * assert (Hoff : field item <> ["spec"; "redis"; "enabled"]
                       \/ truthy (new_val item) = false).
        { apply andb_false_iff in Hcond as [Hne | Hfalse]; [left | now right].
          intros Heq. rewrite Heq, tuple_eqb_refl in Hne. discriminate. }
        intros H.
        apply bind_inv in H as [(x & w1 & Hdel1 & H) | (? & _ & Habs)];
          [| discriminate Habs].
        apply bind_inv in H as [(y & w2 & Hdel2 & H) | (? & _ & Habs)];
          [| discriminate Habs].
        inversion H; subst. exists [].
        eapply step_redis_torn_down; eauto.
    + assert (Hnot : ~ In "redis" (field item)).
      { intros Habs. apply py_in_spec in Habs. congruence. }
      unfold podinfo_branch. intros H.
      apply bind_inv in H as [(found & w1 & Hget & H) | (? & _ & Habs)];
        [| discriminate Habs].
      destruct found as [d |].
      * apply bind_inv in H as [(ps & w2 & Hseq & H) | (? & _ & Habs)];
          [| discriminate Habs].
        unfold lift in H. inversion H as [[Hup Hw]]. subst w2.
        exists [("podInfo", ps)]. eapply step_podinfo_applied; eauto.
      * inversion H; subst. exists []. eapply step_podinfo_skipped; eauto.
  - intros (m & Hstep). unfold on_update_item.
    destruct Hstep as [w1 rs w2 st' Hfield Hnew Hget Hseq Hup
                      | d w1 Hfield Hnew Hget
                      | x w1 y w2 Hin Hoff Hdel1 Hdel2
                      | d w1 ps w2 st' Hnot Hget Hseq Hup
                      | w1 Hnot Hget].
    + unfold redis_branch. rewrite Hfield, Hnew. simpl.
      unfold bind, lift. rewrite Hget, Hseq, Hup. reflexivity.
    + unfold redis_branch. rewrite Hfield, Hnew. simpl.
      unfold bind, ret. rewrite Hget. reflexivity.
    + rewrite (proj2 (py_in_spec "redis" (field item)) Hin).
      unfold redis_branch.
      destruct (tuple_eqb ["spec"; "redis"; "enabled"] (field item)
                && truthy (new_val item)) eqn:Hcond.
      * apply andb_true_iff in Hcond as [Heq Htrue].
        apply tuple_eqb_eq in Heq. destruct Hoff; congruence.
      * unfold bind, ret. rewrite Hdel1, Hdel2. reflexivity.
    + destruct (py_in "redis" (field item)) eqn:Hin;
        [apply py_in_spec in Hin; contradiction |].
      unfold podinfo_branch, bind, lift. rewrite Hget, Hseq, Hup. reflexivity.
    + destruct (py_in "redis" (field item)) eqn:Hin;
        [apply py_in_spec in Hin; contradiction |].
      unfold podinfo_branch, bind, ret. rewrite Hget. reflexivity.
Qed.

(** What one step adds to the log, and what it merges: as many statuses as
    create sequences it started, none or one. *)
Lemma item_step_facts spec ns item st w m st' w' :
  item_step spec ns item st w m st' w' ->
  exists l,
    calls w' = calls w ++ l
    /\ merge_all st m = Ok st'
    /\ Forall (computed_status spec ns) m
    /\ List.length m = sequences_started l.
Proof.
  intros [w1 rs w2 st1 Hfield Hnew Hget Hseq Hup
         | d w1 Hfield Hnew Hget
         | x w1 y w2 Hin Hoff Hdel1 Hdel2
         | d w1 ps w2 st1 Hnot Hget Hseq Hup
         | w1 Hnot Hget].
  - apply get_deployment_calls in Hget. pose proof Hseq as Hrun.
    apply create_sequence_started in Hseq as (l & Hl & Hone).
    exists (ListDeployment ns :: l).
    split; [rewrite Hl, Hget, <- app_assoc; reflexivity |].
    split; [simpl; now rewrite Hup |].
    split; [| simpl; unfold sequences_started in *; simpl; now rewrite Hone].
    constructor; [| constructor]. left. simpl. eauto.
  - apply get_deployment_calls in Hget. exists [ListDeployment ns].
    repeat split; auto.
  - apply teardown_deployment_calls in Hdel1.
    apply teardown_service_calls in Hdel2.
    exists [DeleteDeployment "redis" ns; DeleteService "redis" ns].
    split; [rewrite Hdel2, Hdel1, list_two; reflexivity |].
    repeat split; auto.
  - apply get_deployment_calls in Hget. pose proof Hseq as Hrun.
    apply create_podinfo_inv in Hseq as (repo & tag & res & env & Hseq).
    apply create_sequence_started in Hseq as (l & Hl & Hone).
    exists (ListDeployment ns :: l).
    split; [rewrite Hl, Hget, <- app_assoc; reflexivity |].
    split; [simpl; now rewrite Hup |].
    split; [| simpl; unfold sequences_started in *; simpl; now rewrite Hone].
    constructor; [| constructor]. right. simpl. eauto.
  - apply get_deployment_calls in Hget. exists [ListDeployment ns].
    repeat split; auto.
Qed.

(** The loop ends normally exactly as the steps of the specification do. *)
Lemma on_update_loop_steps spec ns diff st w st' w' :
  on_update_loop spec ns diff st w = (Ok st', w')
  <-> exists ms, diff_steps spec ns diff st w ms st' w'.
Proof.
  revert st w. induction diff as [| item rest IH]; intros st w; simpl.
  - split.
    + intros H. inversion H; subst. exists []. constructor.
    + intros (ms & H). inversion H; subst. reflexivity.
  - split.
    + intros H.
      apply bind_inv in H as [(st1 & w1 & Hitem & H) | (? & _ & Habs)];
        [| discriminate Habs].
      apply on_update_item_step in Hitem as (m & Hm).
      apply IH in H as (ms & Hms).
      exists (m ++ ms). econstructor; eauto.
    + intros (ms & H). inversion H as [| ? ? ? ? m st1 w1 ms' ? ? Hm Hms];
        subst.
      unfold bind.
      rewrite (proj2 (on_update_item_step spec ns item st w st1 w1)
                 (ex_intro _ m Hm)).
      apply IH. eauto.
Qed.

Lemma diff_steps_facts spec ns diff st w ms st' w' :
  diff_steps spec ns diff st w ms st' w' ->
  exists l,
    calls w' = calls w ++ l
    /\ merge_all st ms = Ok st'
    /\ Forall (computed_status spec ns) ms
    /\ List.length ms = sequences_started l.
Proof.
  induction 1 as [st w | item rest st w m st1 w1 ms st' w' Hm Hms IH].
  - exists []. rewrite app_nil_r. repeat split; auto.
  - apply item_step_facts in Hm as (l1 & Hl1 & Hm1 & Hc1 & Hn1).
    destruct IH as (l2 & Hl2 & Hm2 & Hc2 & Hn2).
    exists (l1 ++ l2).
    split; [rewrite Hl2, Hl1, app_assoc; reflexivity |].
    split; [rewrite (merge_all_app _ _ _ ms Hm1); exact Hm2 |].
    split; [apply Forall_app; now split |].
    rewrite length_app, sequences_started_app. congruence.
Qed.

Lemma merge_all_unchanged st ms st' k :
  merge_all st ms = Ok st' ->
  ~ In k (map fst ms) ->
  value_lookup k st' = value_lookup k st.
Proof.
  revert st. induction ms as [| [k0 v0] rest IH]; intros st; simpl.
  - intros H _. now inversion H.
  - destruct (update_method st k0 v0) as [st1 | e] eqn:Hup; [| discriminate].
    intros Hrest Hnot. rewrite (IH st1 Hrest); [| tauto].
    apply update_method_lookup in Hup as [_ Hother].
    apply Hother. intros ->. tauto.
Qed.

Lemma merge_all_last st ms1 k v ms2 st' :
  merge_all st (ms1 ++ (k, v) :: ms2) = Ok st' ->
  ~ In k (map fst ms2) ->
  value_lookup k st' = Some v.
Proof.
  revert st. induction ms1 as [| [k0 v0] rest IH]; intros st; simpl.
  - destruct (update_method st k v) as [st1 | e] eqn:Hup; [| discriminate].
    intros Hrest Hnot. rewrite (merge_all_unchanged _ _ _ _ Hrest Hnot).
    now apply update_method_lookup in Hup.
  - destruct (update_method st k0 v0); [apply IH | discriminate].
Qed.

End LoopFacts.

(** ** The two handlers *)

Section HandlerTheorems.
Context `{E : Env}.

(** C9. The update handler returns a map exactly when the children map is
    found under status.on_create.children and, starting from that map and
    from the handler's world, every item of the diff takes its step in
    turn: the map returned is the one the last step leaves.  The statuses
    merged on the way are those the create sequences of this very run
    returned, each in the world its item reached, each under "redis" or
    "podInfo" according to its sequence, and exactly as many as create
    sequences were started.  So the map returned is the persisted children
    map updated in turn by these statuses; a key that no sequence of this
    update wrote reads as in the persisted map, and a key that was written
    reads as the last status computed for it. *)
Theorem on_update_merges_into_create_status :
  forall spec status ns diff (w : World) st w',
    (on_update spec status ns diff w = (Ok st, w') ->
     exists on_create_status children l ms,
       dict_lookup "on_create" status = Some on_create_status
       /\ value_lookup "children" on_create_status = Some children
       /\ diff_steps spec ns diff children w ms st w'
       /\ calls w' = calls w ++ l
       /\ merge_all children ms = Ok st
       /\ Forall (computed_status spec ns) ms
       /\ List.length ms = sequences_started l
       /\ (forall k, ~ In k (map fst ms) ->
                     value_lookup k st = value_lookup k children)
       /\ (forall ms1 k v ms2,
              ms = ms1 ++ (k, v) :: ms2 ->
              ~ In k (map fst ms2) ->
              value_lookup k st = Some v))
    /\ (forall on_create_status children ms,
           dict_lookup "on_create" status = Some on_create_status ->
           getitem on_create_status "children" = Ok children ->
           diff_steps spec ns diff children w ms st w' ->
           on_update spec status ns diff w = (Ok st, w')).
Proof.
  intros spec status ns diff w st w'. split.
  - intros H. unfold on_update in H.
    apply bind_inv in H as [(oc & w1 & Hoc & H) | (? & _ & Habs)];
      [| discriminate Habs].
    apply bind_inv in H as [(children & w2 & Hch & H) | (? & _ & Habs)];
      [| discriminate Habs].
    unfold lift in Hoc, Hch. inversion Hoc as [[Hoc' Hw1]]. subst w1.
    inversion Hch as [[Hch' Hw2]]. subst w2. clear Hoc Hch.
    unfold getitem in Hoc'.
    destruct (dict_lookup "on_create" status) as [x |] eqn:Hlook;
      [| discriminate]. inversion Hoc'; subst x.
    assert (Hchildren : value_lookup "children" oc = Some children).
    { destruct oc; simpl in *; try discriminate.
      destruct (dict_lookup "children" d); [congruence | discriminate]. }
    apply on_update_loop_steps in H as (ms & Hsteps).
    destruct (diff_steps_facts _ _ _ _ _ _ _ _ Hsteps)
      as (l & Hl & Hm & Hc & Hn).
    exists oc, children, l, ms.
    split; [reflexivity |]. split; [exact Hchildren |].
    split; [exact Hsteps |]. split; [exact Hl |]. split; [exact Hm |].
    split; [exact Hc |]. split; [exact Hn |]. split.
    + intros k Hk. exact (merge_all_unchanged _ _ _ _ Hm Hk).
    + intros ms1 k v ms2 -> Hk. exact (merge_all_last _ _ _ _ _ _ Hm Hk).
  - intros oc children ms Hoc Hch Hsteps.
    unfold on_update, bind at 1 2, lift, getitem at 1.
    rewrite Hoc, Hch. apply on_update_loop_steps. eauto.
Qed.

Lemma has_key_getitem k v :
  has_key k v = true -> exists x, getitem v k = Ok x.
Proof.
  unfold has_key, getitem, value_lookup. destruct v; try discriminate.
  destruct (dict_lookup k d); [eauto | discriminate].
Qed.

(** With its fields in place and a cooperative cluster, the podinfo
    sequence returns a status and every call it makes is about "podinfo". *)
Lemma create_podinfo_succeeds Inv ns spec w :
  healthy Inv -> Inv (cluster w) -> spec_complete spec = true ->
  exists ps w1 l,
    create_podinfo_deployment_and_service ns spec w = (Ok ps, w1)
    /\ Inv (cluster w1)
    /\ calls w1 = calls w ++ l
    /\ Forall (fun c => call_target c = Some "podinfo") l.
Proof.
  intros Hh Hinv Hspec. unfold spec_complete in Hspec.
  repeat (apply andb_prop in Hspec as [Hspec ?]).
  destruct (has_key_getitem _ _ Hspec) as (repo & Hrepo).
  destruct (has_key_getitem "tag" _ ltac:(eassumption)) as (tag & Htag).
  destruct (has_key_getitem "cpuRequest" _ ltac:(eassumption)) as (cpu & Hcpu).
  destruct (has_key_getitem "memoryLimit" _ ltac:(eassumption))
    as (mem & Hmem).
  assert (Henv : exists vars, env_vars spec = Ok vars).
  { unfold env_vars, ui_vars.
    destruct (dict_get spec "ui" (VDict [])); try discriminate.
    simpl. eauto. }
  destruct Henv as (vars & Henv).
  destruct (create_sequence_succeeds Inv PODINFO_DEPLOYMENT_NAME ns repo tag
              (dict_get spec "replicaCount" VNone)
              {| requests := [("cpu", cpu)]; limits := [("memory", mem)] |}
              PODINFO_PORT (Some vars) w Hh Hinv)
    as (ps & w1 & l & body & Hrun & Hinv1 & Hl & _ & _ & Htargets & _).
  exists ps, w1, l. split; [| auto].
  unfold create_podinfo_deployment_and_service, bind, lift.
  rewrite Henv, Hrepo, Htag, Hcpu, Hmem. exact Hrun.
Qed.

Lemma redis_flag_enabled spec :
  redis_is_enabled spec ->
  exists v, get_method (dict_get spec "redis" (VDict [])) "enabled" = Ok v
            /\ truthy v = true.
Proof.
  intros (r & Hr & Hflag). unfold dict_get at 1. rewrite Hr. simpl. eauto.
Qed.

Lemma redis_flag_disabled spec :
  redis_is_disabled spec ->
  exists v, get_method (dict_get spec "redis" (VDict [])) "enabled" = Ok v
            /\ truthy v = false.
Proof.
  intros [Hr | (r & Hr & Hflag)]; unfold dict_get at 1; rewrite Hr; simpl;
    eauto.
Qed.

(** C5. The create handler and redis.
    On every cluster: when [redis.enabled] is true the handler, once the
    podinfo sequence has returned its status, runs the create sequence for
    "redis" with image redis:7.0.12, one replica, the fixed requests and
    limits and no environment, and returns {children: {redis, podInfo}}
    with the status of that sequence (or fails as the sequence fails);
    when [redis.enabled] is false or the [redis] key is missing, the handler
    ends in the world the podinfo sequence left, so nothing is done for
    redis, and its result has redis at {created_on: "Not Created", uid: ""}.
    On a cooperative cluster and a spec with the podinfo fields in place
    the handler does return: with redis enabled the adopted redis
    deployment was sent in a create call and the redis status has a
    non-empty uid; with redis disabled every call issued is about
    "podinfo". *)
Theorem on_create_conditional_redis :
  forall spec ns (w : World),
    let built :=
      deploy_obj REDIS_DEPLOYMENT_NAME ns (VStr "redis") (VStr "7.0.12")
                 (VInt 1) redis_resources REDIS_PORT None in
    (redis_is_enabled spec ->
     forall ps w1 r w2,
       create_podinfo_deployment_and_service ns spec w = (Ok ps, w1) ->
       create_deployment_and_service REDIS_DEPLOYMENT_NAME ns
         (VStr "redis") (VStr "7.0.12") (VInt 1) redis_resources
         (Some REDIS_PORT) None w1
       = (r, w2) ->
       on_create spec ns w
       = (match r with
          | Ok rs => Ok (children_status rs ps)
          | Raise e => Raise e
          end, w2))
    /\ workload built
       = Some (VInt 1,
               [{| container_name := "redis";
                   container_image := "redis:7.0.12";
                   container_ports :=
                     Some [{| container_port := Some 6379%Z |}];
                   container_resources :=
                     {| requests := [("cpu", VStr "100m");
                                     ("memory", VStr "32Mi")];
                        limits := [("cpu", VStr "1000m");
                                   ("memory", VStr "128Mi")] |};
                   container_env := None |}])
    /\ (redis_is_disabled spec ->
        forall r w1,
          create_podinfo_deployment_and_service ns spec w = (r, w1) ->
          on_create spec ns w
          = (match r with
             | Ok ps =>
                 Ok (VDict
                       [("children",
                         VDict [("redis",
                                 VDict [("created_on", VStr "Not Created");
                                        ("uid", VStr "")]);
                                ("podInfo", ps)])])
             | Raise e => Raise e
             end, w1))
    /\ (forall Inv,
           healthy Inv -> Inv (cluster w) -> spec_complete spec = true ->
           exists ps w1 l1,
             create_podinfo_deployment_and_service ns spec w = (Ok ps, w1)
             /\ calls w1 = calls w ++ l1
             /\ Forall (fun c => call_target c = Some "podinfo") l1
             /\ (redis_is_enabled spec ->
                 exists rs w2 l body,
                   on_create spec ns w = (Ok (children_status rs ps), w2)
                   /\ calls w2 = calls w1 ++ l
                   /\ kopf_adopt_deployment built = Ok body
                   /\ In (CreateDeployment body ns) l
                   /\ exists u, value_lookup "uid" rs = Some (VStr u)
                                /\ u <> "")
             /\ (redis_is_disabled spec ->
                 on_create spec ns w
                 = (Ok (children_status DEFAULT_STATUS ps), w1))).
Proof.
  intros spec ns w built.
  assert (Henabled :
            redis_is_enabled spec ->
            forall ps w1 r w2,
              create_podinfo_deployment_and_service ns spec w = (Ok ps, w1) ->
              create_deployment_and_service REDIS_DEPLOYMENT_NAME ns
                (VStr "redis") (VStr "7.0.12") (VInt 1) redis_resources
                (Some REDIS_PORT) None w1
              = (r, w2) ->
              on_create spec ns w
              = (match r with
                 | Ok rs => Ok (children_status rs ps)
                 | Raise e => Raise e
                 end, w2)).
  { intros Hen ps w1 r w2 Hpod Hrun.
    destruct (redis_flag_enabled spec Hen) as (v & Hv & Htrue).
    unfold on_create, bind, lift, ret. rewrite Hv, Hpod, Htrue.
    unfold create_redis_deployment_and_service. rewrite Hrun.
    destruct r; reflexivity. }
  assert (Hdisabled :
            redis_is_disabled spec ->
            forall r w1,
              create_podinfo_deployment_and_service ns spec w = (r, w1) ->
              on_create spec ns w
              = (match r with
                 | Ok ps => Ok (children_status DEFAULT_STATUS ps)
                 | Raise e => Raise e
                 end, w1)).
  { intros Hdis r w1 Hpod.
    destruct (redis_flag_disabled spec Hdis) as (v & Hv & Hfalse).
    unfold on_create, bind, lift, ret. rewrite Hv, Hpod, Hfalse.
    destruct r; reflexivity. }
  split; [exact Henabled |]. split; [reflexivity |].
  split; [exact Hdisabled |].
  intros Inv Hh Hinv Hspec.
  destruct (create_podinfo_succeeds Inv ns spec w Hh Hinv Hspec)
    as (ps & w1 & l1 & Hpod & Hinv1 & Hl1 & Ht1).
  exists ps, w1, l1. split; [exact Hpod |]. split; [exact Hl1 |].
  split; [exact Ht1 |]. split.
  - intros Hen.
    destruct (create_sequence_succeeds Inv REDIS_DEPLOYMENT_NAME ns
                (VStr "redis") (VStr "7.0.12") (VInt 1) redis_resources
                REDIS_PORT None w1 Hh Hinv1)
      as (rs & w2 & l & body & Hrun & _ & Hl & Had & Hin & _
          & created & u & -> & Hu).
    exists (VDict [("created_on", VStr created); ("uid", VStr u)]), w2, l, body.
    split; [exact (Henabled Hen _ _ _ _ Hpod Hrun) |].
    repeat split; auto. exists u. split; [reflexivity | exact Hu].
  - intros Hdis. exact (Hdisabled Hdis _ _ Hpod).
Qed.

(** *** Adoption, from the sequence up to the handlers *)

Lemma respects_lift {A : Type} (x : Result A) : respects_adoption (lift x).
Proof.
  intros w r w' H. unfold lift in H. inversion H; subst. exists [].
  rewrite app_nil_r. split; [reflexivity |]. split; [exact I | auto].
Qed.

Lemma respects_ret {A : Type} (a : A) : respects_adoption (ret a).
Proof. exact (respects_lift (Ok a)). Qed.

Lemma respects_bind {A B : Type} (m : M A) (k : A -> M B) :
  respects_adoption m -> (forall a, respects_adoption (k a)) ->
  respects_adoption (bind m k).
Proof.
  intros Hm Hk w r w' H.
  apply bind_inv in H as [(a & w1 & H1 & H2) | (e & H1 & _)].
  - apply Hm in H1 as (l1 & Hl1 & Ha1 & Ho1).
    apply Hk in H2 as (l2 & Hl2 & Ha2 & Ho2).
    exists (l1 ++ l2). split; [rewrite Hl2, Hl1, app_assoc; reflexivity |].
    split.
    + apply adopted_app; [exact Ha1 |].
      apply adopted_weaken with (seen := []); [intros c [] | exact Ha2].
    + intros o Ho. apply Forall_app. auto.
  - now apply Hm in H1.
Qed.

(** Reads and deletes write nothing. *)
Lemma respects_one_call {A : Type} (m : M A) (c : Call) :
  is_write c = false ->
  (forall w r w', m w = (r, w') -> calls w' = calls w ++ [c]) ->
  respects_adoption m.
Proof.
  intros Hc Hm w r w' H. apply Hm in H. exists [c]. split; [exact H |].
  split.
  - apply adopted_no_write. now constructor.
  - intros o _. constructor; [| constructor]. destruct c; try exact I;
      discriminate Hc.
Qed.

Lemma respects_create_sequence name ns repo tag reps res port env :
  respects_adoption
    (create_deployment_and_service name ns repo tag reps res port env).
Proof.
  intros w r w' H.
  apply create_sequence_adopts in H as (l & Hl & _ & Ha & Ho). eauto.
Qed.

Lemma respects_create_podinfo ns spec :
  respects_adoption (create_podinfo_deployment_and_service ns spec).
Proof.
  unfold create_podinfo_deployment_and_service.
  repeat (apply respects_bind; [apply respects_lift | intros ?]).
  apply respects_create_sequence.
Qed.

Lemma respects_on_update_item spec ns item st :
  respects_adoption (on_update_item spec ns item st).
Proof.
  unfold on_update_item, redis_branch, podinfo_branch.
  destruct (py_in "redis" (field item)).
  - destruct (tuple_eqb ["spec"; "redis"; "enabled"] (field item)
              && truthy (new_val item)).
    + apply respects_bind.
      * apply respects_one_call with (c := ListDeployment ns);
          [reflexivity | intros w r w'; apply get_deployment_calls].
      * intros [d |]; [apply respects_ret |].
        apply respects_bind; [apply respects_create_sequence |].
        intros rs. apply respects_lift.
    + apply respects_bind.
      * apply respects_one_call with (c := DeleteDeployment "redis" ns);
          [reflexivity | intros w r w'; apply teardown_deployment_calls].
      * intros _. apply respects_bind; [| intros _; apply respects_ret].
        apply respects_one_call with (c := DeleteService "redis" ns);
          [reflexivity | intros w r w'; apply teardown_service_calls].
  - apply respects_bind.
    + apply respects_one_call with (c := ListDeployment ns);
        [reflexivity | intros w r w'; apply get_deployment_calls].
    + intros [d |]; [| apply respects_ret].
      apply respects_bind; [apply respects_create_podinfo |].
      intros ps. apply respects_lift.
Qed.

Lemma respects_on_update_loop spec ns diff st :
  respects_adoption (on_update_loop spec ns diff st).
Proof.
  revert st. induction diff as [| item rest IH]; intros st; simpl.
  - apply respects_ret.
  - apply respects_bind; [apply respects_on_update_item | exact IH].
Qed.

(** C8. Adoption comes before the gateway.  In every run of the create
    sequence, for podinfo and for redis alike and whatever the outcome
    (without a port it has raised before its first call), every call
    belongs to the sequence: each deployment or service body
    handed to the gateway, created or patched, is what [kopf.adopt]
    returned for the object just built, and that adoption call stands
    earlier in the log than the write.  The create and the update handler
    reach the gateway's writes through that sequence only, so the same
    holds of every run of theirs: each object they write to the cluster
    carries the owner reference that adoption attaches. *)
Theorem adoption_precedes_gateway :
  (forall name ns repo tag reps res expose_port env (w : World) r w',
      create_deployment_and_service name ns repo tag reps res expose_port env w
      = (r, w') ->
      exists l,
        calls w' = calls w ++ l
        /\ match expose_port with
           | Some port =>
               Forall (sequence_call
                         (deploy_obj name ns repo tag reps res port env)
                         (svc_obj name ns port)) l
           | None => l = []
           end
        /\ adopted_before_use [] l
        /\ forall o, attaches_owner o -> Forall (owned_by o) l)
  /\ (forall spec ns, respects_adoption (on_create spec ns))
  /\ (forall spec status ns diff,
         respects_adoption (on_update spec status ns diff)).
Proof.
  split; [| split].
  - intros name ns repo tag reps res expose_port env w r w'.
    apply create_sequence_adopts.
  - intros spec ns. unfold on_create.
    apply respects_bind; [apply respects_lift | intros flag].
    apply respects_bind; [apply respects_create_podinfo | intros ps].
    apply respects_bind; [| intros rs; apply respects_ret].
    destruct (truthy flag); [apply respects_create_sequence | apply respects_ret].
  - intros spec status ns diff. unfold on_update.
    apply respects_bind; [apply respects_lift | intros oc].
    apply respects_bind; [apply respects_lift | intros children].
    apply respects_on_update_loop.
Qed.

End HandlerTheorems.

(** ** The statements at work on the in-memory cluster *)

Example create_without_redis_returns :
  fst (on_create (E := StoreEnv) spec_without_redis "ns"
                 (store_world empty_store))
  = Ok (VDict [("children", created_children)]).
Proof. reflexivity. Qed.

(** The end-to-end scenario: two deployments, podinfo with two replicas and
    redis with one, both owned by the parent, and two services. *)
Example create_with_redis_deploys :
  map summary (store_deployments enabled_store)
  = [(Some "podinfo", Some (VInt 2), Some "uid-0", [parent_reference]);
     (Some "redis", Some (VInt 1), Some "uid-2", [parent_reference])]
  /\ map (fun e => meta_name (service_metadata (snd e)))
         (store_services enabled_store)
     = [Some "podinfo"; Some "redis"].
Proof. split; reflexivity. Qed.

(** Running the create handler again patches: same objects, same uids. *)
Example create_twice_patches :
  map summary
      (store_deployments
         (cluster (snd (on_create (E := StoreEnv) spec_with_redis "ns"
                                  (store_world enabled_store)))))
  = map summary (store_deployments enabled_store)
  /\ fst (on_create (E := StoreEnv) spec_with_redis "ns"
                    (store_world enabled_store))
     = fst (on_create (E := StoreEnv) spec_with_redis "ns"
                      (store_world empty_store)).
Proof. split; reflexivity. Qed.

(** Tearing redis down twice: the first call deletes, the second meets a
    404 and still returns normally; the store ends without redis. *)
Example teardown_twice :
  let w1 := snd (teardown_deployment (E := StoreEnv) "redis" "ns"
                   (store_world enabled_store)) in
  fst (teardown_deployment (E := StoreEnv) "redis" "ns"
         (store_world enabled_store))
  = Ok (Some {| status_message := Some "Success" |})
  /\ fst (teardown_deployment (E := StoreEnv) "redis" "ns" w1) = Ok None
  /\ map (fun e => meta_name (deployment_metadata (snd e)))
         (store_deployments
            (cluster (snd (teardown_deployment (E := StoreEnv) "redis" "ns"
                             w1))))
     = [Some "podinfo"].
Proof. cbv zeta. repeat split; reflexivity. Qed.

Example upper_color : upper "color" = "COLOR".
Proof. reflexivity. Qed.

(** C2, as the specification words it, fails: the path
    (spec, redisConfig, host) contains "redis" as a substring of a
    segment, yet the item is handled by the podinfo branch.  After a
    Create with redis, the redis branch would have deleted the redis
    objects; the code lists the deployments and patches podinfo. *)
Lemma redis_substring_goes_to_podinfo :
  mentions_redis (field config_item) = true
  /\ on_update_item (E := StoreEnv) spec_with_redis "ns" config_item
       created_children (store_world enabled_store)
     = podinfo_branch (E := StoreEnv) spec_with_redis "ns" created_children
         (store_world enabled_store)
  /\ on_update_item (E := StoreEnv) spec_with_redis "ns" config_item
       created_children (store_world enabled_store)
     <> redis_branch (E := StoreEnv) spec_with_redis "ns" (field config_item)
          (new_val config_item) created_children (store_world enabled_store)
  /\ map call_target
       (calls (snd (on_update_item (E := StoreEnv) spec_with_redis "ns"
                      config_item created_children
                      (store_world enabled_store))))
     = [None; Some "podinfo"; Some "podinfo"; Some "podinfo"; Some "podinfo";
        Some "podinfo"; Some "podinfo"].
Proof.
  split; [reflexivity |]. split; [reflexivity |]. split; [| reflexivity].
  intros H. vm_compute in H. discriminate H.
Qed.

Lemma redis_branch_by_segment_witness :
  on_update_item (E := StoreEnv) spec_with_redis "ns" enable_item
    created_children (store_world created_store)
  = redis_branch (E := StoreEnv) spec_with_redis "ns" (field enable_item)
      (new_val enable_item) created_children (store_world created_store)
  /\ on_update_item (E := StoreEnv) spec_with_redis "ns" config_item
       created_children (store_world created_store)
     = podinfo_branch (E := StoreEnv) spec_with_redis "ns" created_children
         (store_world created_store).
Proof.
  split.
  - apply (redis_branch_by_segment (E := StoreEnv)). simpl. auto.
  - apply (redis_branch_by_segment (E := StoreEnv)). simpl.
    intros [H | [H | [H | []]]]; discriminate H.
Defined.

(** Enabling redis after a Create without it creates the deployment once:
    a first update runs the sequence and records the new status; the same
    item met again, now that "redis" is deployed, only lists. *)
Lemma enable_redis_creates_once_witness :
  (fst (on_update_item (E := StoreEnv) spec_with_redis "ns" enable_item
          created_children (store_world created_store))
   = Ok (VDict [("redis", redis_created);
                ("podInfo",
                 VDict [("created_on", VStr "Sat Jul 29 01:08:24 2023");
                        ("uid", VStr "uid-0")])]))
  /\ on_update_item (E := StoreEnv) spec_with_redis "ns" enable_item
       created_children (store_world enabled_store)
     = (Ok created_children,
        store_logged enabled_store [ListDeployment "ns"]).
Proof.
  split.
  - pose proof
      (enable_redis_creates_once (E := StoreEnv) spec_with_redis "ns"
         enable_item created_children (store_world created_store)
         (map snd (store_deployments created_store))
         eq_refl eq_refl eq_refl) as [Hcreate _].
    cbv zeta in Hcreate.
    specialize (Hcreate eq_refl _ _ (surjective_pairing _)) as [Hrun _].
    rewrite Hrun. reflexivity.
  - exact (proj2
             (enable_redis_creates_once (E := StoreEnv) spec_with_redis "ns"
                enable_item created_children (store_world enabled_store)
                (map snd (store_deployments enabled_store))
                eq_refl eq_refl eq_refl)
             _ eq_refl).
Defined.

(** A tag change met on a cluster without podinfo is skipped. *)
Lemma podinfo_update_guard_witness :
  on_update_item (E := StoreEnv) spec_with_redis "ns" tag_item
    created_children (store_world empty_store)
  = (Ok created_children, store_logged empty_store [ListDeployment "ns"]).
Proof.
  refine (proj1
            (podinfo_update_guard (E := StoreEnv) spec_with_redis "ns"
               tag_item created_children (store_world empty_store) []
               _ eq_refl)
            eq_refl).
  simpl. intros [H | [H | [H | []]]]; discriminate H.
Defined.

(** The environment of the specification's example. *)
Lemma podinfo_environment_witness :
  (exists vars,
      env_vars (E := StoreEnv) spec_without_redis = Ok vars
      /\ List.length vars = 3
      /\ nth_error vars 0
         = Some {| env_name := "PODINFO_CACHE_SERVER";
                   env_value := VStr "tcp://redis:6379" |}
      /\ nth_error vars 1
         = Some {| env_name := "PODINFO_UI_COLOR"; env_value := VStr "blue" |}
      /\ nth_error vars 2
         = Some {| env_name := "PODINFO_UI_MESSAGE"; env_value := VStr "hi" |})
  /\ env_vars (E := StoreEnv) spec_with_redis
     = Ok [{| env_name := "PODINFO_CACHE_SERVER";
              env_value := VStr "tcp://redis:6379" |}].
Proof.
  split.
  - destruct (proj2 (podinfo_environment (E := StoreEnv) spec_without_redis)
                [("color", VStr "blue"); ("message", VStr "hi")] eq_refl)
      as (vars & Hvars & Hlen & Hfixed & _ & Hascii).
    exists vars. split; [exact Hvars |]. split; [exact Hlen |].
    split; [exact Hfixed |]. split.
    + exact (Hascii (fun s _ => eq_refl) 0 "color" (VStr "blue")
               eq_refl eq_refl).
    + exact (Hascii (fun s _ => eq_refl) 1 "message" (VStr "hi")
               eq_refl eq_refl).
  - exact (proj1 (podinfo_environment (E := StoreEnv) spec_with_redis) eq_refl).
Defined.

(** The create handler with redis on the empty in-memory cluster: the
    objects of both workloads reach the cluster with the parent's owner
    reference. *)
Lemma adoption_precedes_gateway_witness :
  exists l,
    calls (snd (on_create (E := StoreEnv) spec_with_redis "ns"
                   (store_world empty_store))) = l
    /\ adopted_before_use (E := StoreEnv) [] l
    /\ Forall (owned_by parent_reference) l.
Proof.
  destruct (proj1 (proj2 (adoption_precedes_gateway (E := StoreEnv)))
              spec_with_redis "ns" (store_world empty_store) _ _
              (surjective_pairing _))
    as (l & Hl & Hadopted & Howned).
  exists l. split; [exact Hl |]. split; [exact Hadopted |].
  apply Howned. split.
  - intros obj d H. inversion H. simpl. apply in_or_app. right. now left.
  - intros obj s H. inversion H. simpl. apply in_or_app. right. now left.
Defined.

(** An update that enables redis and changes the tag, after a Create
    without redis. *)
Lemma on_update_merges_into_create_status_witness :
  exists children ms st,
    fst (on_update (E := StoreEnv) spec_with_redis created_status "ns"
           [enable_item; tag_item] (store_world created_store)) = Ok st
    /\ children = created_children
    /\ diff_steps (E := StoreEnv) spec_with_redis "ns" [enable_item; tag_item]
         children (store_world created_store) ms st
         (snd (on_update (E := StoreEnv) spec_with_redis created_status "ns"
                 [enable_item; tag_item] (store_world created_store)))
    /\ merge_all children ms = Ok st
    /\ List.length ms = 2.
Proof.
  destruct (proj1 (on_update_merges_into_create_status (E := StoreEnv)
                     spec_with_redis created_status "ns"
                     [enable_item; tag_item] (store_world created_store)
                     (VDict [("redis", redis_created);
                             ("podInfo",
                              VDict [("created_on",
                                      VStr "Sat Jul 29 01:08:24 2023");
                                     ("uid", VStr "uid-0")])])
                     (snd (on_update (E := StoreEnv) spec_with_redis
                             created_status "ns" [enable_item; tag_item]
                             (store_world created_store))))
              (surjective_pairing _))
    as (oc & children & l & ms & Hoc & Hch & Hsteps & Hl & Hm & _ & Hn & _).
  exists children, ms. eexists. split; [reflexivity |].
  inversion Hoc; subst oc. inversion Hch; subst children.
  split; [reflexivity |]. split; [exact Hsteps |]. split; [exact Hm |].
  rewrite Hn. change (calls (store_world created_store) ++ l) with l in Hl.
  rewrite <- Hl. reflexivity.
Defined.

(** An update on a parent whose Create never recorded a status. *)
Lemma on_update_requires_create_status_witness :
  on_update (E := StoreEnv) spec_with_redis [] "ns" [enable_item]
    (store_world empty_store)
  = (Raise (KeyError "on_create"), store_world empty_store)
  /\ on_update (E := StoreEnv) spec_with_redis [("on_create", VDict [])] "ns"
       [enable_item] (store_world empty_store)
     = (Raise (KeyError "children"), store_world empty_store).
Proof.
  split.
  - exact (proj1 (on_update_requires_create_status (E := StoreEnv)
                    spec_with_redis [] "ns" [enable_item]
                    (store_world empty_store)) eq_refl).
  - exact (proj2 (on_update_requires_create_status (E := StoreEnv)
                    spec_with_redis [("on_create", VDict [])] "ns"
                    [enable_item] (store_world empty_store))
             [] eq_refl eq_refl).
Defined.

(** The create handler on the empty in-memory cluster, with and without
    redis. *)
Lemma on_create_conditional_redis_witness :
  (exists ps rs w' u,
      on_create (E := StoreEnv) spec_with_redis "ns" (store_world empty_store)
      = (Ok (children_status rs ps), w')
      /\ value_lookup "uid" rs = Some (VStr u)
      /\ u <> "")
  /\ (exists ps w',
         on_create (E := StoreEnv) spec_without_redis "ns"
                   (store_world empty_store)
         = (Ok (children_status DEFAULT_STATUS ps), w')
         /\ Forall (fun c => call_target c = Some "podinfo") (calls w')).
Proof.
  split.
  - destruct (proj2 (proj2 (proj2
                (on_create_conditional_redis (E := StoreEnv)
                   spec_with_redis "ns" (store_world empty_store))))
                store_live store_healthy store_live_empty eq_refl)
      as (ps & w1 & l1 & _ & _ & _ & Hen & _).
    destruct Hen as (rs & w2 & l & body & Hrun & _ & _ & _ & u & Hu & Hne).
    { exists [("enabled", VBool true)]. split; reflexivity. }
    exists ps, rs, w2, u. auto.
  - destruct (proj2 (proj2 (proj2
                (on_create_conditional_redis (E := StoreEnv)
                   spec_without_redis "ns" (store_world empty_store))))
                store_live store_healthy store_live_empty eq_refl)
      as (ps & w1 & l1 & _ & Hl & Htargets & _ & Hdis).
    exists ps, w1. split; [apply Hdis; left; reflexivity |].
    change (calls (store_world empty_store) ++ l1) with l1 in Hl.
    rewrite Hl. exact Htargets.
Defined.

(* ================================================================== *)
(** * Further properties of the gateway *)
(* ================================================================== *)

Section GatewayMore.
Context `{E : Env}.

(** X1. Conflict falls back to patch. When the create is answered by 409,
    the deployment (the service) is patched by name with the very body
    whose create failed, and whatever the patch answers, the live object or
    an error of its own, is the outcome of the call; the log shows the
    create, then that patch, and nothing else. *)
Theorem conflict_falls_back_to_patch :
  forall name ns (w : World),
    (forall body c1 r c2,
        create_namespaced_deployment body ns (cluster w)
        = (Raise (ApiException 409), c1) ->
        patch_namespaced_deployment name ns body c1 = (r, c2) ->
        create_or_update_deployment name body ns w
        = (r, {| cluster := c2;
                 calls := calls w ++ [CreateDeployment body ns;
                                      PatchDeployment name ns body] |}))
    /\ (forall body c1 r c2,
           create_namespaced_service ns body (cluster w)
           = (Raise (ApiException 409), c1) ->
           patch_namespaced_service name ns body c1 = (r, c2) ->
           create_or_update_service name body ns w
           = (r, {| cluster := c2;
                    calls := calls w ++ [CreateService ns body;
                                         PatchService name ns body] |})).
Proof.
  intros name ns w. split; intros body c1 r c2 Hc Hp.
  - rewrite (create_or_update_deployment_conflict name body ns w _ _ _ Hc Hp).
    now rewrite list_two.
  - rewrite (create_or_update_service_conflict name body ns w _ _ _ Hc Hp).
    now rewrite list_two.
Qed.

(** X2. A patch is attempted if and only if the create was answered by 409.
    Every run of [create_or_update_deployment] ([create_or_update_service])
    logs the create alone when the create's answer is anything but
    [ApiException 409], and the create followed by one patch when it is;
    it never lists and never deletes. *)
Theorem patch_only_on_conflict :
  (forall name body ns (w : World) r w',
      create_or_update_deployment name body ns w = (r, w') ->
      (fst (create_namespaced_deployment body ns (cluster w))
       <> Raise (ApiException 409)
       /\ calls w' = calls w ++ [CreateDeployment body ns])
      \/ (fst (create_namespaced_deployment body ns (cluster w))
          = Raise (ApiException 409)
          /\ calls w' = calls w ++ [CreateDeployment body ns;
                                    PatchDeployment name ns body]))
  /\ (forall name body ns (w : World) r w',
         create_or_update_service name body ns w = (r, w') ->
         (fst (create_namespaced_service ns body (cluster w))
          <> Raise (ApiException 409)
          /\ calls w' = calls w ++ [CreateService ns body])
         \/ (fst (create_namespaced_service ns body (cluster w))
             = Raise (ApiException 409)
             /\ calls w' = calls w ++ [CreateService ns body;
                                       PatchService name ns body])).
Proof.
  split; intros name body ns w r w'.
  - unfold create_or_update_deployment, try_except_ApiException, read_local,
      bind, mutate, ret, raise.
    destruct (create_namespaced_deployment body ns (cluster w))
      as [[d | [status | | | | | |]] c1]; simpl;
      try (intros H; inversion H; subst; simpl; left; split;
           [discriminate | reflexivity]).
    destruct (Z.eqb_spec status 409) as [-> | Hne]; simpl.
    + destruct (patch_namespaced_deployment name ns body c1) as [[d | e] c2];
        simpl; intros H; inversion H; subst; simpl; rewrite list_two;
        right; auto.
    + intros H; inversion H; subst; simpl. left.
      split; [congruence | reflexivity].
  - unfold create_or_update_service, try_except_ApiException, read_local,
      bind, mutate, ret, raise.
    destruct (create_namespaced_service ns body (cluster w))
      as [[d | [status | | | | | |]] c1]; simpl;
      try (intros H; inversion H; subst; simpl; left; split;
           [discriminate | reflexivity]).
    destruct (Z.eqb_spec status 409) as [-> | Hne]; simpl.
    + destruct (patch_namespaced_service name ns body c1) as [[d | e] c2];
        simpl; intros H; inversion H; subst; simpl; rewrite list_two;
        right; auto.
    + intros H; inversion H; subst; simpl. left.
      split; [congruence | reflexivity].
Qed.

(** X3. What the create answers goes through. A create that succeeds makes
    the call return the created object after that single call; a create
    that raises anything other than an [ApiException] (a network failure,
    say) makes the call raise that same exception, with no patch tried. *)
Theorem create_outcome_passes_through :
  forall name ns (w : World),
    (forall body d c1,
        create_namespaced_deployment body ns (cluster w) = (Ok d, c1) ->
        create_or_update_deployment name body ns w
        = (Ok d, {| cluster := c1;
                    calls := calls w ++ [CreateDeployment body ns] |}))
    /\ (forall body e c1,
           (forall status, e <> ApiException status) ->
           create_namespaced_deployment body ns (cluster w) = (Raise e, c1) ->
           create_or_update_deployment name body ns w
           = (Raise e, {| cluster := c1;
                          calls := calls w ++ [CreateDeployment body ns] |}))
    /\ (forall body s c1,
           create_namespaced_service ns body (cluster w) = (Ok s, c1) ->
           create_or_update_service name body ns w
           = (Ok s, {| cluster := c1;
                       calls := calls w ++ [CreateService ns body] |}))
    /\ (forall body e c1,
           (forall status, e <> ApiException status) ->
           create_namespaced_service ns body (cluster w) = (Raise e, c1) ->
           create_or_update_service name body ns w
           = (Raise e, {| cluster := c1;
                          calls := calls w ++ [CreateService ns body] |})).
Proof.
  intros name ns w. repeat split.
  - intros body d c1. apply create_or_update_deployment_created.
  - intros body e c1 Hne Hc.
    unfold create_or_update_deployment, try_except_ApiException, read_local,
      bind, mutate, ret, raise.
    rewrite Hc. destruct e; try reflexivity. now contradiction (Hne status).
  - intros body s c1. apply create_or_update_service_created.
  - intros body e c1 Hne Hc.
    unfold create_or_update_service, try_except_ApiException, read_local,
      bind, mutate, ret, raise.
    rewrite Hc. destruct e; try reflexivity. now contradiction (Hne status).
Qed.

(** X4. [get_deployment] answers from one listing of the namespace and
    leaves the cluster alone.  When the listing succeeds, a deployment it
    returns is one of those listed, it bears the name asked for, and no
    deployment listed before it does; [None] means that no listed
    deployment bears that name.  When the listing raises, so does the call,
    with the same exception. *)
Theorem get_deployment_finds_first :
  forall name ns (w : World),
    let w1 := {| cluster := cluster w;
                 calls := calls w ++ [ListDeployment ns] |} in
    (forall ds,
        list_namespaced_deployment ns (cluster w) = Ok ds ->
        exists found,
          get_deployment name ns w = (Ok found, w1)
          /\ (forall d, found = Some d ->
                exists before after,
                  ds = before ++ d :: after
                  /\ meta_name (deployment_metadata d) = Some name
                  /\ forall d', In d' before ->
                       meta_name (deployment_metadata d') <> Some name)
          /\ (found = None ->
              forall d, In d ds ->
                meta_name (deployment_metadata d) <> Some name))
    /\ (forall e,
           list_namespaced_deployment ns (cluster w) = Raise e ->
           get_deployment name ns w = (Raise e, w1)).
Proof.
  intros name ns w w1.
  assert (Hname : forall d, has_name name d = true
                            <-> meta_name (deployment_metadata d) = Some name).
  { intros d. unfold has_name.
    destruct (meta_name (deployment_metadata d)) as [n |].
    - rewrite String.eqb_eq. split; congruence.
    - split; discriminate. }
  split.
  - intros ds Hl. exists (find (has_name name) ds).
    split; [now apply get_deployment_listed |]. split.
    + intros d Hfound. clear Hl.
      induction ds as [| d0 rest IH]; simpl in Hfound; [discriminate |].
      destruct (has_name name d0) eqn:H0.
      * inversion Hfound; subst d0. exists [], rest.
        split; [reflexivity |]. split; [now apply Hname | intros d' []].
      * destruct (IH Hfound) as (before & after & -> & Hd & Hbefore).
        exists (d0 :: before), after. split; [reflexivity |].
        split; [exact Hd |]. intros d' [<- | Hin]; [| now apply Hbefore].
        intros Habs. apply Hname in Habs. congruence.
    + intros Hnone d Hin Habs. apply Hname in Habs.
      pose proof (find_none _ _ Hnone d Hin). congruence.
  - intros e Hl. unfold get_deployment, bind, query, log, ret.
    rewrite Hl. reflexivity.
Qed.

(** X5. A teardown is one delete call, whatever comes of it; and when the
    delete succeeds the call returns the status the cluster answered. *)
Theorem teardown_is_one_delete :
  forall name ns (w : World),
    (forall r w', teardown_deployment name ns w = (r, w') ->
                  calls w' = calls w ++ [DeleteDeployment name ns])
    /\ (forall r w', teardown_service name ns w = (r, w') ->
                     calls w' = calls w ++ [DeleteService name ns])
    /\ (forall s c1,
           delete_namespaced_deployment name ns (cluster w) = (Ok s, c1) ->
           teardown_deployment name ns w
           = (Ok (Some s),
              {| cluster := c1;
                 calls := calls w ++ [DeleteDeployment name ns] |}))
    /\ (forall s c1,
           delete_namespaced_service name ns (cluster w) = (Ok s, c1) ->
           teardown_service name ns w
           = (Ok (Some s),
              {| cluster := c1;
                 calls := calls w ++ [DeleteService name ns] |})).
Proof.
  intros name ns w. repeat split.
  - intros r w'. apply teardown_deployment_calls.
  - intros r w'. apply teardown_service_calls.
  - intros s c1. apply teardown_deployment_deleted.
  - intros s c1 Hd.
    unfold teardown_service, try_except_ApiException, bind, mutate, ret.
    rewrite Hd. reflexivity.
Qed.

End GatewayMore.

(** A conflict followed by a refused patch: the patch's 422 is what the
    caller sees. *)
Lemma conflict_falls_back_to_patch_witness :
  create_or_update_deployment (E := PatchedEnv refused_patch) "podinfo"
    unstamped_deployment "ns" (patched_world refused_patch)
  = (Raise (ApiException 422),
     patched_logged refused_patch
       [CreateDeployment unstamped_deployment "ns";
        PatchDeployment "podinfo" "ns" unstamped_deployment])
  /\ create_or_update_service (E := PatchedEnv refused_patch) "podinfo"
       test_service "ns" (patched_world refused_patch)
     = (Raise (ApiException 422),
        patched_logged refused_patch
          [CreateService "ns" test_service;
           PatchService "podinfo" "ns" test_service]).
Proof.
  split.
  - exact (proj1 (conflict_falls_back_to_patch (E := PatchedEnv refused_patch)
                    "podinfo" "ns" (patched_world refused_patch))
             unstamped_deployment tt _ tt eq_refl eq_refl).
  - exact (proj2 (conflict_falls_back_to_patch (E := PatchedEnv refused_patch)
                    "podinfo" "ns" (patched_world refused_patch))
             test_service tt _ tt eq_refl eq_refl).
Defined.

(** On the in-memory cluster holding podinfo, a second create of podinfo
    is a create and a patch; on the empty one it is a create alone. *)
Lemma patch_only_on_conflict_witness :
  let body := own_deployment parent_reference
                (deploy_obj (E := StoreEnv) "podinfo" "ns" (VStr "myrepo")
                   (VStr "v1") (VInt 2)
                   {| requests := [("cpu", VStr "50m")];
                      limits := [("memory", VStr "64Mi")] |}
                   PODINFO_PORT None) in
  calls (snd (create_or_update_deployment (E := StoreEnv) "podinfo" body "ns"
                (store_world created_store)))
  = [CreateDeployment body "ns"; PatchDeployment "podinfo" "ns" body]
  /\ calls (snd (create_or_update_deployment (E := StoreEnv) "podinfo" body
                   "ns" (store_world empty_store)))
     = [CreateDeployment body "ns"].
Proof.
  intros body. split.
  - destruct (proj1 (patch_only_on_conflict (E := StoreEnv)) "podinfo" body
                "ns" (store_world created_store) _ _ (surjective_pairing _))
      as [[Hne _] | [_ Hcalls]]; [| exact Hcalls].
    exfalso. apply Hne. reflexivity.
  - destruct (proj1 (patch_only_on_conflict (E := StoreEnv)) "podinfo" body
                "ns" (store_world empty_store) _ _ (surjective_pairing _))
      as [[_ Hcalls] | [Heq _]]; [exact Hcalls |].
    discriminate Heq.
Defined.

(** With the network down the client's own exception reaches the caller. *)
Lemma create_outcome_passes_through_witness :
  create_or_update_deployment (E := PatchedEnv unreachable) "podinfo"
    unstamped_deployment "ns" (patched_world unreachable)
  = (Raise (OtherException "MaxRetryError"),
     patched_logged unreachable [CreateDeployment unstamped_deployment "ns"])
  /\ create_or_update_deployment (E := PatchedEnv unstamped) "podinfo"
       unstamped_deployment "ns" (patched_world unstamped)
     = (Ok unstamped_deployment,
        patched_logged unstamped [CreateDeployment unstamped_deployment "ns"]).
Proof.
  split.
  - refine (proj1 (proj2 (create_outcome_passes_through
                             (E := PatchedEnv unreachable) "podinfo" "ns"
                             (patched_world unreachable)))
              unstamped_deployment _ tt _ eq_refl).
    intros status. discriminate.
  - exact (proj1 (create_outcome_passes_through (E := PatchedEnv unstamped)
                    "podinfo" "ns" (patched_world unstamped))
             unstamped_deployment _ tt eq_refl).
Defined.

(** Looking for redis after a Create with redis, and after one without. *)
Lemma get_deployment_finds_first_witness :
  (exists d, fst (get_deployment (E := StoreEnv) "redis" "ns"
                    (store_world enabled_store)) = Ok (Some d)
             /\ meta_name (deployment_metadata d) = Some "redis")
  /\ fst (get_deployment (E := StoreEnv) "redis" "ns"
            (store_world created_store)) = Ok None
  /\ get_deployment (E := PatchedEnv unreachable) "redis" "ns"
       (patched_world unreachable)
     = (Raise (OtherException "MaxRetryError"),
        patched_logged unreachable [ListDeployment "ns"]).
Proof.
  split; [| split].
  - destruct (proj1 (get_deployment_finds_first (E := StoreEnv) "redis" "ns"
                       (store_world enabled_store)) _ eq_refl)
      as (found & Hrun & Hsome & _).
    destruct found as [d |] eqn:Hfound.
    + exists d. split; [now rewrite Hrun |].
      destruct (Hsome d eq_refl) as (_ & _ & _ & Hname & _). exact Hname.
    + exfalso. apply (f_equal fst) in Hrun. discriminate Hrun.
  - destruct (proj1 (get_deployment_finds_first (E := StoreEnv) "redis" "ns"
                       (store_world created_store)) _ eq_refl)
      as (found & Hrun & _). reflexivity.
  - exact (proj2 (get_deployment_finds_first (E := PatchedEnv unreachable)
                    "redis" "ns" (patched_world unreachable)) _ eq_refl).
Defined.

(** Deleting the redis deployment of the in-memory cluster. *)
Lemma teardown_is_one_delete_witness :
  calls (snd (teardown_deployment (E := StoreEnv) "redis" "ns"
                (store_world enabled_store)))
  = [DeleteDeployment "redis" "ns"]
  /\ fst (teardown_deployment (E := StoreEnv) "redis" "ns"
            (store_world enabled_store))
     = Ok (Some {| status_message := Some "Success" |}).
Proof.
  split.
  - exact (proj1 (teardown_is_one_delete (E := StoreEnv) "redis" "ns"
                    (store_world enabled_store)) _ _ (surjective_pairing _)).
  - pose proof (proj1 (proj2 (proj2
                  (teardown_is_one_delete (E := StoreEnv) "redis" "ns"
                     (store_world enabled_store)))) _ _ (surjective_pairing _))
      as Hrun.
    rewrite Hrun. reflexivity.
Defined.

(* ================================================================== *)
(** * Further properties of the create sequence *)
(* ================================================================== *)

Section SequenceMore.
Context `{E : Env}.

(** X6. The two objects of a create sequence fit together.  Without a
    port nothing is built: [V1ContainerPort] refuses it and the sequence
    raises [ValueError] in the world it started in.  With a port, the
    deployment has one container, named after the workload, whose image is
    "<repository>:<tag>"; the deployment's selector and the service's
    selector both name exactly the labels of the pod template; the service
    is a ClusterIP service with one TCP port, the container's port; and
    both objects carry the workload's name and namespace. *)
Theorem built_objects_fit_together :
  forall name ns repo tag reps res env,
    (forall w : World,
        create_deployment_and_service name ns repo tag reps res None env w
        = (Raise (ValueError "container_port"), w))
    /\ forall port,
      exists dspec c sspec sp,
        deployment_spec (deploy_obj name ns repo tag reps res port env)
        = Some dspec
        /\ service_spec (svc_obj name ns port) = Some sspec
        /\ containers (template_spec (template dspec)) = [c]
        /\ container_name c = name
        /\ container_image c = (py_format repo ++ ":" ++ py_format tag)%string
        /\ container_env c = env
        /\ replicas dspec = reps
        /\ meta_labels (template_metadata (template dspec))
           = Some (service_selector sspec)
        /\ selector dspec
           = VDict [("matchLabels",
                     VDict (map (fun kv => (fst kv, VStr (snd kv)))
                                (service_selector sspec)))]
        /\ service_type sspec = "ClusterIP"
        /\ service_ports sspec = [sp]
        /\ service_port_protocol sp = "TCP"
        /\ container_ports c = Some [{| container_port := service_port sp |}]
        /\ service_port sp = Some port
        /\ meta_name (deployment_metadata
                        (deploy_obj name ns repo tag reps res port env))
           = Some name
        /\ meta_name (service_metadata (svc_obj name ns port)) = Some name
        /\ meta_namespace (deployment_metadata
                             (deploy_obj name ns repo tag reps res port env))
           = Some ns
        /\ meta_namespace (service_metadata (svc_obj name ns port)) = Some ns.
Proof.
  intros. split; [reflexivity |]. intros port.
  unfold deploy_obj, svc_obj, create_deployment_object, create_service_object.
  do 4 eexists. repeat split; reflexivity.
Qed.

(** X7. A status is only returned by a sequence that went all the way.
    When the create sequence returns, it had a port, both adoptions
    succeeded; the log
    shows them, then the create of the adopted deployment (and its patch,
    if any), then the create of the adopted service (and its patch, if
    any); and the status returned has exactly the keys "created_on" and
    "uid", formatted from the creation timestamp and taken from the uid of
    the deployment that create-or-update returned.  The service that came
    back plays no part in it. *)
Theorem status_reports_live_deployment :
  forall name ns repo tag reps res expose_port env (w : World) st w',
    create_deployment_and_service name ns repo tag reps res expose_port env w
    = (Ok st, w') ->
    exists port d s w2 live_d w3 t ld ls,
      expose_port = Some port
      /\ kopf_adopt_deployment (deploy_obj name ns repo tag reps res port env)
         = Ok d
      /\ kopf_adopt_service (svc_obj name ns port) = Ok s
      /\ create_or_update_deployment name d ns w2 = (Ok live_d, w3)
      /\ meta_creation_timestamp (deployment_metadata live_d) = Some t
      /\ st = VDict [("created_on", VStr (strftime_c t));
                     ("uid", uid_value live_d)]
      /\ calls w'
         = calls w
             ++ AdoptDeployment (deploy_obj name ns repo tag reps res port env)
             :: AdoptService (svc_obj name ns port) :: ld ++ ls
      /\ (ld = [CreateDeployment d ns]
          \/ ld = [CreateDeployment d ns; PatchDeployment name ns d])
      /\ (ls = [CreateService ns s]
          \/ ls = [CreateService ns s; PatchService name ns s]).
Proof.
  intros name ns repo tag reps res expose_port env w st w' H.
  unfold create_deployment_and_service in H.
  destruct expose_port as [port |]; [| discriminate H].
  apply bind_inv in H as [(d & w1 & Had & H) | (? & _ & Habs)];
    [| discriminate Habs].
  apply external_inv in Had as [Had Hw1].
  apply bind_inv in H as [(s & w2 & Has & H) | (? & _ & Habs)];
    [| discriminate Habs].
  apply external_inv in Has as [Has Hw2].
  apply bind_inv in H as [(live_d & w3 & Hd & H) | (? & _ & Habs)];
    [| discriminate Habs].
  apply bind_inv in H as [(svc & w4 & Hs & H) | (? & _ & Habs)];
    [| discriminate Habs].
  pose proof (create_or_update_deployment_calls _ _ _ _ _ _ Hd) as Hld.
  pose proof (create_or_update_service_calls _ _ _ _ _ _ Hs) as Hls.
  unfold bind, ret, raise in H.
  destruct (meta_creation_timestamp (deployment_metadata live_d))
    as [t |] eqn:Ht; [| discriminate H].
  inversion H; subst st w4. clear H.
  assert (Hlog : forall ld ls,
             calls w3 = calls w2 ++ ld -> calls w' = calls w3 ++ ls ->
             calls w'
             = calls w
                 ++ AdoptDeployment
                      (deploy_obj name ns repo tag reps res port env)
                 :: AdoptService (svc_obj name ns port) :: ld ++ ls).
  { intros ld ls H3 H4. rewrite H4, H3, Hw2, Hw1, <- !app_assoc. reflexivity. }
  exists port, d, s, w2, live_d, w3, t.
  destruct Hld as [Hld | Hld], Hls as [Hls | Hls];
    do 2 eexists; (split; [reflexivity |]);
    (split; [congruence |]); (split; [congruence |]);
    (split; [exact Hd |]); (split; [exact Ht |]);
    (split; [reflexivity |]);
    (split; [exact (Hlog _ _ Hld Hls) |]); auto.
Qed.

(** X8. The status is computed after both objects were written.  If, for
    a sequence given a port, the creates succeed but the deployment that comes back has no creation
    timestamp, the sequence raises [AttributeError] where it formats the
    timestamp: the caller gets no status although the deployment and the
    service have been created. *)
Theorem missing_timestamp_fails_after_writes :
  forall name ns repo tag reps res port env (w : World) d s live_d c1 svc c2,
    kopf_adopt_deployment (deploy_obj name ns repo tag reps res port env)
    = Ok d ->
    kopf_adopt_service (svc_obj name ns port) = Ok s ->
    create_namespaced_deployment d ns (cluster w) = (Ok live_d, c1) ->
    create_namespaced_service ns s c1 = (Ok svc, c2) ->
    meta_creation_timestamp (deployment_metadata live_d) = None ->
    create_deployment_and_service name ns repo tag reps res (Some port) env w
    = (Raise (AttributeError "strftime"),
       {| cluster := c2;
          calls := calls w
                     ++ [AdoptDeployment
                           (deploy_obj name ns repo tag reps res port env);
                         AdoptService (svc_obj name ns port);
                         CreateDeployment d ns;
                         CreateService ns s] |}).
Proof.
  intros name ns repo tag reps res port env w d s live_d c1 svc c2
         Had Has Hcd Hcs Hts.
  unfold create_deployment_and_service.
  unfold bind at 1. unfold external at 1. rewrite Had.
  unfold bind at 1. unfold external at 1. rewrite Has.
  set (w2 := log (AdoptService (svc_obj name ns port))
               (log (AdoptDeployment
                       (deploy_obj name ns repo tag reps res port env)) w)).
  unfold bind at 1.
  rewrite (create_or_update_deployment_created name d ns w2 live_d c1 Hcd).
  unfold bind at 1.
  rewrite (create_or_update_service_created name s ns
             {| cluster := c1; calls := calls w2 ++ [CreateDeployment d ns] |}
             svc c2 Hcs).
  unfold bind, raise. rewrite Hts. unfold w2, log. simpl.
  rewrite <- !app_assoc. reflexivity.
Qed.

End SequenceMore.

(** The redis sequence on the empty in-memory cluster. *)
Lemma status_reports_live_deployment_witness :
  exists live_d t,
    fst (create_redis_deployment_and_service (E := StoreEnv) "ns"
           spec_with_redis (store_world empty_store))
    = Ok (VDict [("created_on", VStr (strftime_c (Env := StoreEnv) t));
                 ("uid", uid_value live_d)])
    /\ meta_uid (deployment_metadata live_d) = Some "uid-0".
Proof.
  destruct (status_reports_live_deployment (E := StoreEnv)
              REDIS_DEPLOYMENT_NAME "ns" (VStr "redis") (VStr "7.0.12")
              (VInt 1) redis_resources (Some REDIS_PORT) None
              (store_world empty_store) redis_on_empty _ eq_refl)
    as (port & d & s & w2 & live_d & w3 & t & ld & ls
        & _ & _ & _ & _ & _ & Hst & _).
  exists live_d, t. split; [rewrite <- Hst; reflexivity |].
  unfold redis_on_empty, uid_value in Hst.
  destruct (meta_uid (deployment_metadata live_d));
    [congruence | discriminate Hst].
Defined.

(** Patched clients that return a deployment without timestamp, as several
    unit tests set them up. *)
Lemma missing_timestamp_fails_after_writes_witness :
  fst (create_redis_deployment_and_service (E := PatchedEnv unstamped) "ns"
         spec_with_redis (patched_world unstamped))
  = Raise (AttributeError "strftime")
  /\ List.length
       (calls (snd (create_redis_deployment_and_service
                      (E := PatchedEnv unstamped) "ns" spec_with_redis
                      (patched_world unstamped)))) = 4.
Proof.
  pose proof (missing_timestamp_fails_after_writes (E := PatchedEnv unstamped)
                REDIS_DEPLOYMENT_NAME "ns" (VStr "redis") (VStr "7.0.12")
                (VInt 1) redis_resources REDIS_PORT None
                (patched_world unstamped) _ _ _ tt _ tt
                eq_refl eq_refl eq_refl eq_refl eq_refl) as Hrun.
  unfold create_redis_deployment_and_service. rewrite Hrun.
  split; reflexivity.
Defined.

(* ================================================================== *)
(** * Further properties of the handlers *)
(* ================================================================== *)

Section HandlersMore.
Context `{E : Env}.

(** X9. Anything touching redis that is not the switch-on tears redis
    down.  For a diff item with a segment "redis" whose path is not exactly
    (spec, redis, enabled), whatever its new value, or whose path is that
    one with a false new value: the redis deployment is deleted, then the
    redis service, nothing is looked up, built or created, and the status
    map is returned as it was.  If deleting the deployment raises (any
    answer other than success or 404), the service is not touched and the
    exception leaves the handler. *)
Theorem redis_change_tears_down :
  forall spec ns item st (w : World),
    In "redis" (field item) ->
    field item <> ["spec"; "redis"; "enabled"]
    \/ truthy (new_val item) = false ->
    forall r1 w1,
      teardown_deployment "redis" ns w = (r1, w1) ->
      calls w1 = calls w ++ [DeleteDeployment "redis" ns]
      /\ (forall e, r1 = Raise e ->
                    on_update_item spec ns item st w = (Raise e, w1))
      /\ (forall x, r1 = Ok x ->
            forall r2 w2,
              teardown_service "redis" ns w1 = (r2, w2) ->
              on_update_item spec ns item st w
              = (match r2 with
                 | Ok _ => Ok st
                 | Raise e => Raise e
                 end, w2)
              /\ calls w2 = calls w ++ [DeleteDeployment "redis" ns;
                                        DeleteService "redis" ns]).
Proof.
  intros spec ns item st w Hin Hoff r1 w1 Hdel.
  assert (Hroute :
            on_update_item spec ns item st w
            = (teardown_deployment "redis" ns ;;;
               teardown_service "redis" ns ;;;
               ret st) w).
  { unfold on_update_item, redis_branch.
    rewrite (proj2 (py_in_spec "redis" (field item)) Hin).
    destruct (tuple_eqb ["spec"; "redis"; "enabled"] (field item)
              && truthy (new_val item)) eqn:Hcond; [| reflexivity].
    apply andb_true_iff in Hcond as [Heq Htrue].
    apply tuple_eqb_eq in Heq. destruct Hoff; congruence. }
  rewrite Hroute. clear Hroute.
  pose proof (teardown_deployment_calls _ _ _ _ _ Hdel) as Hw1.
  split; [exact Hw1 |]. split.
  - intros e ->. unfold bind. rewrite Hdel. reflexivity.
  - intros x -> r2 w2 Hsvc.
    pose proof (teardown_service_calls _ _ _ _ _ Hsvc) as Hw2.
    split.
    + unfold bind at 1. rewrite Hdel. unfold bind, ret. rewrite Hsvc.
      destruct r2; reflexivity.
    + rewrite Hw2, Hw1. apply list_two.
Qed.

Lemma getitem_has_key v k x : getitem v k = Ok x -> has_key k v = true.
Proof.
  unfold getitem, has_key, value_lookup. destruct v; try discriminate.
  destruct (dict_lookup k d); [reflexivity | discriminate].
Qed.

Lemma env_vars_is_dict spec vars :
  env_vars spec = Ok vars -> is_dict (dict_get spec "ui" (VDict [])) = true.
Proof.
  unfold env_vars, ui_vars, items_method.
  destruct (dict_get spec "ui" (VDict [])); try discriminate. reflexivity.
Qed.

(** X10. A spec that lacks a podinfo field is refused before anything
    reaches the cluster.  If [image.repository], [image.tag],
    [resources.cpuRequest] or [resources.memoryLimit] is missing, or [ui] is
    given but is not a mapping, then the podinfo sequence raises in the
    world it started in, and so does the create handler: no object is
    adopted and no API call is issued, for podinfo or for redis. *)
Theorem incomplete_spec_calls_nothing :
  forall spec ns (w : World),
    spec_complete spec = false ->
    (exists e, create_podinfo_deployment_and_service ns spec w = (Raise e, w))
    /\ (exists e, on_create spec ns w = (Raise e, w)).
Proof.
  intros spec ns w Hspec.
  assert (Hpod : forall w0 : World,
             exists e,
               create_podinfo_deployment_and_service ns spec w0 = (Raise e, w0)).
  { intros w0. unfold create_podinfo_deployment_and_service, bind, lift.
    destruct (env_vars spec) as [vars | e] eqn:Henv; [| eauto].
    destruct (getitem (dict_get spec "image" VNone) "repository")
      as [repo | e] eqn:Hrepo; [| eauto].
    destruct (getitem (dict_get spec "image" VNone) "tag")
      as [tag | e] eqn:Htag; [| eauto].
    destruct (getitem (dict_get spec "resources" VNone) "cpuRequest")
      as [cpu | e] eqn:Hcpu; [| eauto].
    destruct (getitem (dict_get spec "resources" VNone) "memoryLimit")
      as [mem | e] eqn:Hmem; [| eauto].
    exfalso. unfold spec_complete in Hspec.
    rewrite (getitem_has_key _ _ _ Hrepo), (getitem_has_key _ _ _ Htag),
      (getitem_has_key _ _ _ Hcpu), (getitem_has_key _ _ _ Hmem),
      (env_vars_is_dict _ _ Henv) in Hspec.
    discriminate Hspec. }
  split; [apply Hpod |].
  unfold on_create, bind, lift.
  destruct (get_method (dict_get spec "redis" (VDict [])) "enabled")
    as [flag | e]; [| eauto].
  destruct (Hpod w) as (e & He). rewrite He. eauto.
Qed.

(** X11. A [redis] key that is present but is not a mapping (null, a
    string, a list) stops the create handler at its first line, with
    [AttributeError]: podinfo itself is not created, whatever the rest of
    the spec says. *)
Theorem redis_must_be_mapping :
  forall spec ns (w : World) v,
    dict_lookup "redis" spec = Some v ->
    is_dict v = false ->
    on_create spec ns w = (Raise (AttributeError "get"), w).
Proof.
  intros spec ns w v Hlook Hv. unfold on_create, bind, lift, dict_get.
  rewrite Hlook. destruct v; try reflexivity. discriminate Hv.
Qed.

(** X14. The fixed variable cannot be overridden from [ui].  In every
    environment list built, the first element is PODINFO_CACHE_SERVER and
    every other element has a name that starts with PODINFO_UI_, hence
    different from PODINFO_CACHE_SERVER, whatever the keys of [ui]. *)
Theorem fixed_variable_is_unique :
  forall spec vars,
    env_vars spec = Ok vars ->
    exists rest,
      vars = {| env_name := "PODINFO_CACHE_SERVER";
                env_value := VStr "tcp://redis:6379" |} :: rest
      /\ Forall (fun v => prefix "PODINFO_UI_" (env_name v) = true
                          /\ env_name v <> "PODINFO_CACHE_SERVER") rest.
Proof.
  intros spec vars. unfold env_vars, ui_vars.
  destruct (items_method (dict_get spec "ui" (VDict []))) as [kvs | e];
    [| discriminate].
  intros H. inversion H; subst vars. clear H.
  eexists. split; [reflexivity |].
  apply Forall_map. apply Forall_forall. intros [k v] _. simpl. split.
  - destruct (str_upper k); reflexivity.
  - discriminate.
Qed.

End HandlersMore.

(** ** What the handlers may call *)

Section CallDiscipline.
Context `{E : Env}.

Lemma emits_lift {A : Type} (P : Call -> Prop) (x : Result A) :
  emits P (lift x).
Proof.
  intros w r w' H. unfold lift in H. inversion H; subst. exists [].
  now rewrite app_nil_r.
Qed.

Lemma emits_bind {A B : Type} (P : Call -> Prop) (m : M A) (k : A -> M B) :
  emits P m -> (forall a, emits P (k a)) -> emits P (bind m k).
Proof.
  intros Hm Hk w r w' H.
  apply bind_inv in H as [(a & w1 & H1 & H2) | (e & H1 & _)].
  - apply Hm in H1 as (l1 & Hl1 & HP1). apply Hk in H2 as (l2 & Hl2 & HP2).
    exists (l1 ++ l2). split; [rewrite Hl2, Hl1, app_assoc; reflexivity |].
    apply Forall_app. now split.
  - now apply Hm in H1.
Qed.

Lemma emits_weaken {A : Type} (P Q : Call -> Prop) (m : M A) :
  (forall c, P c -> Q c) -> emits P m -> emits Q m.
Proof.
  intros HPQ Hm w r w' H. apply Hm in H as (l & Hl & HP).
  exists l. split; [exact Hl |]. eapply Forall_impl; eauto.
Qed.

Lemma emits_one_call {A : Type} (P : Call -> Prop) (m : M A) (c : Call) :
  P c ->
  (forall w r w', m w = (r, w') -> calls w' = calls w ++ [c]) ->
  emits P m.
Proof.
  intros Hc Hm w r w' H. apply Hm in H. exists [c]. split; [exact H |].
  now constructor.
Qed.

Lemma emits_create_sequence name ns repo tag reps res port env :
  emits (sequence_scoped name ns)
    (create_deployment_and_service name ns repo tag reps res port env).
Proof.
  intros w r w' H. destruct port as [port |].
  2:{ unfold create_deployment_and_service, raise in H. inversion H; subst.
      exists []. rewrite app_nil_r. split; [reflexivity | constructor]. }
  apply create_sequence_calls in H. cbv zeta in H.
  destruct H as (l & Hl & Hshape). exists l. split; [exact Hl |].
  destruct Hshape as [-> | [-> | (d & s & ld & ls & _ & _ & -> & Hld & Hls)]].
  - repeat constructor.
  - repeat constructor.
  - destruct Hld as [-> | ->], Hls as [-> | [-> | ->]];
      repeat constructor; simpl; auto.
Qed.

Lemma emits_create_podinfo ns spec :
  emits (sequence_scoped PODINFO_DEPLOYMENT_NAME ns)
    (create_podinfo_deployment_and_service ns spec).
Proof.
  unfold create_podinfo_deployment_and_service.
  repeat (apply emits_bind; [apply emits_lift | intros ?]).
  apply emits_create_sequence.
Qed.

(** X12. The create handler only creates and patches, and only its own
    two workloads in its own namespace.  In every run, every call it
    issues is an adoption, a create of a deployment or service in the
    handler's namespace, or a patch of "podinfo" or "redis" in that
    namespace: it never lists, it never deletes (so a failure half-way
    leaves what was already applied), and it never reaches another
    namespace. *)
Theorem on_create_only_applies :
  forall spec ns, emits (create_handler_call ns) (on_create spec ns).
Proof.
  intros spec ns. unfold on_create.
  apply emits_bind; [apply emits_lift | intros flag].
  apply emits_bind.
  { eapply emits_weaken; [| apply emits_create_podinfo].
    intros c Hc. left. exact Hc. }
  intros ps. apply emits_bind; [| intros rs; apply (emits_lift _ (Ok _))].
  destruct (truthy flag); [| apply (emits_lift _ (Ok _))].
  eapply emits_weaken; [| apply emits_create_sequence].
  intros c Hc. right. exact Hc.
Qed.

Lemma emits_on_update_item spec ns item st :
  emits (update_handler_call ns) (on_update_item spec ns item st).
Proof.
  assert (Hlist : emits (update_handler_call ns)
                    (get_deployment "redis" ns)
                  /\ emits (update_handler_call ns)
                       (get_deployment "podinfo" ns)).
  { split; apply emits_one_call with (c := ListDeployment ns);
      try (right; left; reflexivity);
      intros w r w'; apply get_deployment_calls. }
  destruct Hlist as [Hredis Hpodinfo].
  unfold on_update_item, redis_branch, podinfo_branch.
  destruct (py_in "redis" (field item)).
  - destruct (tuple_eqb ["spec"; "redis"; "enabled"] (field item)
              && truthy (new_val item)).
    + apply emits_bind; [exact Hredis |].
      intros [d |]; [apply (emits_lift _ (Ok _)) |].
      apply emits_bind; [| intros rs; apply emits_lift].
      eapply emits_weaken; [| apply emits_create_sequence].
      intros c Hc. left. right. exact Hc.
    + apply emits_bind.
      * apply emits_one_call with (c := DeleteDeployment "redis" ns);
          [right; right; left; reflexivity
          | intros w r w'; apply teardown_deployment_calls].
      * intros _. apply emits_bind;
          [| intros _; apply (emits_lift _ (Ok _))].
        apply emits_one_call with (c := DeleteService "redis" ns);
          [right; right; right; reflexivity
          | intros w r w'; apply teardown_service_calls].
  - apply emits_bind; [exact Hpodinfo |].
    intros [d |]; [| apply (emits_lift _ (Ok _))].
    apply emits_bind; [| intros ps; apply emits_lift].
    eapply emits_weaken; [| apply emits_create_podinfo].
    intros c Hc. left. left. exact Hc.
Qed.

(** X13. The update handler deletes nothing but redis.  In every run,
    over any diff, every call it issues is a listing of the deployments of
    its namespace, a delete of the deployment or service named "redis" in
    that namespace, or one of the calls open to the create handler: the
    podinfo deployment and service are never deleted, and no other
    namespace is read or written. *)
Theorem on_update_only_deletes_redis :
  forall spec status ns diff,
    emits (update_handler_call ns) (on_update spec status ns diff).
Proof.
  intros spec status ns diff. unfold on_update.
  apply emits_bind; [apply emits_lift | intros oc].
  apply emits_bind; [apply emits_lift | intros children].
  revert children. induction diff as [| item rest IH]; intros st; simpl.
  - apply (emits_lift _ (Ok _)).
  - apply emits_bind; [apply emits_on_update_item | exact IH].
Qed.

End CallDiscipline.

(** ** The further statements at work *)

(** Adding the whole redis block, with [enabled: true] inside, is not the
    switch-on path: on a cluster without redis the two deletes are issued
    (and answered 404), nothing is created and the status is unchanged. *)
Lemma redis_change_tears_down_witness :
  on_update_item (E := StoreEnv) spec_with_redis "ns" subtree_item
    created_children (store_world created_store)
  = (Ok created_children,
     store_logged created_store [DeleteDeployment "redis" "ns";
                                 DeleteService "redis" "ns"]).
Proof.
  destruct (redis_change_tears_down (E := StoreEnv) spec_with_redis "ns"
              subtree_item created_children (store_world created_store))
    with (3 := surjective_pairing
                 (teardown_deployment (E := StoreEnv) "redis" "ns"
                    (store_world created_store)))
    as (_ & _ & Hok).
  - simpl. auto.
  - left. discriminate.
  - exact (proj1 (Hok None eq_refl _ _ (surjective_pairing _))).
Defined.

(** Switching redis off on a cluster that runs it removes both redis
    objects and keeps those of podinfo; the status map is handed back
    unchanged. *)
Example disable_removes_redis :
  let run := on_update_item (E := StoreEnv) spec_with_redis "ns" disable_item
               created_children (store_world enabled_store) in
  fst run = Ok created_children
  /\ map (fun e => meta_name (deployment_metadata (snd e)))
         (store_deployments (cluster (snd run))) = [Some "podinfo"]
  /\ map (fun e => meta_name (service_metadata (snd e)))
         (store_services (cluster (snd run))) = [Some "podinfo"].
Proof. cbv zeta. repeat split; reflexivity. Qed.

(** A spec without image tag. *)
Lemma incomplete_spec_calls_nothing_witness :
  exists e,
    on_create (E := StoreEnv) spec_without_tag "ns" (store_world empty_store)
    = (Raise e, store_world empty_store).
Proof.
  exact (proj2 (incomplete_spec_calls_nothing (E := StoreEnv) spec_without_tag
                  "ns" (store_world empty_store) eq_refl)).
Defined.

Example missing_tag_is_key_error :
  on_create (E := StoreEnv) spec_without_tag "ns" (store_world empty_store)
  = (Raise (KeyError "tag"), store_world empty_store)
  /\ on_create (E := StoreEnv) [] "ns" (store_world empty_store)
     = (Raise (TypeError "not subscriptable by str"), store_world empty_store).
Proof. split; reflexivity. Qed.

(** A spec whose [redis] key is null. *)
Lemma redis_must_be_mapping_witness :
  on_create (E := StoreEnv) spec_null_redis "ns" (store_world empty_store)
  = (Raise (AttributeError "get"), store_world empty_store).
Proof.
  exact (redis_must_be_mapping (E := StoreEnv) spec_null_redis "ns"
           (store_world empty_store) VNone eq_refl eq_refl).
Defined.

(** The environment of the specification's example. *)
Lemma fixed_variable_is_unique_witness :
  exists rest,
    env_vars (E := StoreEnv) spec_without_redis
    = Ok ({| env_name := "PODINFO_CACHE_SERVER";
             env_value := VStr "tcp://redis:6379" |} :: rest)
    /\ Forall (fun v => env_name v <> "PODINFO_CACHE_SERVER") rest.
Proof.
  destruct (fixed_variable_is_unique (E := StoreEnv) spec_without_redis
              _ eq_refl) as (rest & Hvars & Hrest).
  exists rest. split.
  - rewrite <- Hvars. reflexivity.
  - eapply Forall_impl; [| exact Hrest]. intros v [_ Hne]. exact Hne.
Defined.

(** The create handler with redis, and an update that switches redis on,
    changes the tag and switches redis off again. *)
Lemma on_create_only_applies_witness :
  Forall (create_handler_call "ns")
    (calls (snd (on_create (E := StoreEnv) spec_with_redis "ns"
                   (store_world empty_store)))).
Proof.
  destruct (on_create_only_applies (E := StoreEnv) spec_with_redis "ns"
              (store_world empty_store) _ _ (surjective_pairing _))
    as (l & Hl & HP).
  change (calls (store_world empty_store) ++ l) with l in Hl.
  rewrite Hl. exact HP.
Defined.

Lemma on_update_only_deletes_redis_witness :
  Forall (update_handler_call "ns")
    (calls (snd (on_update (E := StoreEnv) spec_with_redis created_status "ns"
                   [enable_item; tag_item; disable_item]
                   (store_world created_store)))).
Proof.
  destruct (on_update_only_deletes_redis (E := StoreEnv) spec_with_redis
              created_status "ns" [enable_item; tag_item; disable_item]
              (store_world created_store) _ _ (surjective_pairing _))
    as (l & Hl & HP).
  change (calls (store_world created_store) ++ l) with l in Hl.
  rewrite Hl. exact HP.
Defined.

(* ================================================================== *)
(** * Further properties: failures and composition *)
(* ================================================================== *)

Section FailuresAndComposition.
Context `{E : Env}.

(** X15. No adoption, no creation.  In a sequence given a port, if
    [kopf.adopt] raises on the deployment, the sequence raises that exception having issued no API
    call at all; if it raises on the service, likewise: an object that
    could not be given its owner is never sent to the cluster. *)
Theorem failed_adoption_creates_nothing :
  forall name ns repo tag reps res port env (w : World),
    let built_d := deploy_obj name ns repo tag reps res port env in
    let built_s := svc_obj name ns port in
    (forall e,
        kopf_adopt_deployment built_d = Raise e ->
        create_deployment_and_service name ns repo tag reps res (Some port)
          env w
        = (Raise e, {| cluster := cluster w;
                       calls := calls w ++ [AdoptDeployment built_d] |}))
    /\ (forall d e,
           kopf_adopt_deployment built_d = Ok d ->
           kopf_adopt_service built_s = Raise e ->
           create_deployment_and_service name ns repo tag reps res
             (Some port) env w
           = (Raise e, {| cluster := cluster w;
                          calls := calls w ++ [AdoptDeployment built_d;
                                               AdoptService built_s] |})).
Proof.
  intros name ns repo tag reps res port env w built_d built_s. split.
  - intros e Had. unfold create_deployment_and_service, bind, external, log.
    fold built_d. rewrite Had. reflexivity.
  - intros d e Had Has.
    unfold create_deployment_and_service, bind, external, log.
    fold built_d built_s. rewrite Had, Has. simpl. now rewrite list_two.
Qed.

(** X16. What the podinfo deployment is made of.  When the spec holds the
    fields read, the first thing the podinfo sequence does is to adopt a
    deployment named "podinfo" with one container: image
    "<image.repository>:<image.tag>", port 9898, cpu request
    [resources.cpuRequest], memory limit [resources.memoryLimit], the
    environment list built from [ui], and [replicaCount] replicas.  A
    missing [replicaCount] is no error: the replica count is then [None]. *)
Theorem podinfo_deployment_follows_spec :
  forall spec ns (w : World) repo tag cpu mem vars,
    getitem (dict_get spec "image" VNone) "repository" = Ok repo ->
    getitem (dict_get spec "image" VNone) "tag" = Ok tag ->
    getitem (dict_get spec "resources" VNone) "cpuRequest" = Ok cpu ->
    getitem (dict_get spec "resources" VNone) "memoryLimit" = Ok mem ->
    env_vars spec = Ok vars ->
    exists obj rest,
      calls (snd (create_podinfo_deployment_and_service ns spec w))
      = calls w ++ AdoptDeployment obj :: rest
      /\ meta_name (deployment_metadata obj) = Some "podinfo"
      /\ meta_namespace (deployment_metadata obj) = Some ns
      /\ workload obj
         = Some (match dict_lookup "replicaCount" spec with
                 | Some n => n
                 | None => VNone
                 end,
                 [{| container_name := "podinfo";
                     container_image :=
                       (py_format repo ++ ":" ++ py_format tag)%string;
                     container_ports :=
                       Some [{| container_port := Some 9898%Z |}];
                     container_resources :=
                       {| requests := [("cpu", cpu)];
                          limits := [("memory", mem)] |};
                     container_env := Some vars |}]).
Proof.
  intros spec ns w repo tag cpu mem vars Hrepo Htag Hcpu Hmem Henv.
  unfold create_podinfo_deployment_and_service, bind, lift.
  rewrite Henv, Hrepo, Htag, Hcpu, Hmem.
  destruct (create_deployment_and_service PODINFO_DEPLOYMENT_NAME ns repo tag
              (dict_get spec "replicaCount" VNone)
              {| requests := [("cpu", cpu)]; limits := [("memory", mem)] |}
              (Some PODINFO_PORT) (Some vars) w) as [r w'] eqn:Hrun.
  apply create_sequence_calls in Hrun. cbv zeta in Hrun.
  destruct Hrun as (l & Hl & Hshape).
  eexists. exists (tl l). split.
  - simpl. rewrite Hl.
    destruct Hshape as [-> | [-> | (d & s & ld & ls & _ & _ & -> & _)]];
      reflexivity.
  - repeat split.
Qed.

(** X17. A lookup that fails ends the item before anything is written.
    For an item that switches redis on, and for an item without a "redis"
    segment, if listing the deployments raises, the item raises that
    exception after that single call. *)
Theorem failed_lookup_writes_nothing :
  forall spec ns item st (w : World) e,
    list_namespaced_deployment ns (cluster w) = Raise e ->
    (field item = ["spec"; "redis"; "enabled"] /\ truthy (new_val item) = true)
    \/ ~ In "redis" (field item) ->
    on_update_item spec ns item st w
    = (Raise e, {| cluster := cluster w;
                   calls := calls w ++ [ListDeployment ns] |}).
Proof.
  intros spec ns item st w e Hlist Hitem.
  assert (Hget : forall name,
             get_deployment name ns w
             = (Raise e, {| cluster := cluster w;
                            calls := calls w ++ [ListDeployment ns] |})).
  { intros name. unfold get_deployment, bind, query, log.
    rewrite Hlist. reflexivity. }
  unfold on_update_item. destruct Hitem as [[Hfield Hnew] | Hnot].
  - unfold redis_branch. rewrite Hfield, Hnew. simpl.
    unfold bind. rewrite Hget. reflexivity.
  - destruct (py_in "redis" (field item)) eqn:Hin.
    + apply py_in_spec in Hin. contradiction.
    + unfold podinfo_branch, bind. rewrite Hget. reflexivity.
Qed.

Lemma on_update_loop_app spec ns d1 d2 st (w : World) :
  on_update_loop spec ns (d1 ++ d2) st w
  = (st1 <- on_update_loop spec ns d1 st ;; on_update_loop spec ns d2 st1) w.
Proof.
  revert st w. induction d1 as [| item rest IH]; intros st w; simpl.
  - reflexivity.
  - unfold bind in *.
    destruct (on_update_item spec ns item st w) as [[st1 | e] w1];
      [apply IH | reflexivity].
Qed.

(** X18. The diff is processed in order and the first failure ends the
    update.  If the items before some item are processed normally and that
    item raises, the handler raises the same exception in the world that
    item left: what the earlier items did to the cluster stays, and the
    items after it are not looked at. *)
Theorem first_failure_ends_update :
  forall spec status ns before item after (w : World)
         oc children st1 w1 e w2,
    dict_lookup "on_create" status = Some oc ->
    getitem oc "children" = Ok children ->
    on_update_loop spec ns before children w = (Ok st1, w1) ->
    on_update_item spec ns item st1 w1 = (Raise e, w2) ->
    on_update spec status ns (before ++ item :: after) w = (Raise e, w2).
Proof.
  intros spec status ns before item after w oc children st1 w1 e w2
         Hoc Hch Hbefore Hitem.
  unfold on_update, bind at 1 2, lift, getitem at 1.
  rewrite Hoc, Hch, on_update_loop_app.
  unfold bind at 1. rewrite Hbefore. simpl.
  unfold bind. rewrite Hitem. reflexivity.
Qed.

End FailuresAndComposition.

(** The create sequence called outside a handler, as the unit tests would
    without patching [kopf.adopt]: the store stays empty. *)
Lemma failed_adoption_creates_nothing_witness :
  create_redis_deployment_and_service (E := OutsideHandler) "ns"
    spec_with_redis outside_world
  = (Raise (OtherException "LookupError"),
     {| cluster := (empty_store : @Cluster OutsideHandler);
        calls := [AdoptDeployment
                    (deploy_obj (E := OutsideHandler) REDIS_DEPLOYMENT_NAME
                       "ns" (VStr "redis") (VStr "7.0.12") (VInt 1)
                       redis_resources REDIS_PORT None)] |}).
Proof.
  exact (proj1 (failed_adoption_creates_nothing (E := OutsideHandler)
                  REDIS_DEPLOYMENT_NAME "ns" (VStr "redis") (VStr "7.0.12")
                  (VInt 1) redis_resources REDIS_PORT None
                  outside_world) _ eq_refl).
Defined.

(** The podinfo deployment of the end-to-end scenario. *)
Lemma podinfo_deployment_follows_spec_witness :
  exists obj rest,
    calls (snd (create_podinfo_deployment_and_service (E := StoreEnv) "ns"
                  spec_with_redis (store_world empty_store)))
    = AdoptDeployment obj :: rest
    /\ workload obj
       = Some (VInt 2,
               [{| container_name := "podinfo";
                   container_image := "myrepo:v1";
                   container_ports :=
                     Some [{| container_port := Some 9898%Z |}];
                   container_resources :=
                     {| requests := [("cpu", VStr "50m")];
                        limits := [("memory", VStr "64Mi")] |};
                   container_env :=
                     Some [{| env_name := "PODINFO_CACHE_SERVER";
                              env_value := VStr "tcp://redis:6379" |}] |}]).
Proof.
  destruct (podinfo_deployment_follows_spec (E := StoreEnv) spec_with_redis
              "ns" (store_world empty_store)
              (VStr "myrepo") (VStr "v1") (VStr "50m") (VStr "64Mi") _
              eq_refl eq_refl eq_refl eq_refl eq_refl)
    as (obj & rest & Hcalls & _ & _ & Hwork).
  exists obj, rest. split; [exact Hcalls | exact Hwork].
Defined.

(** With the network down, switching redis on stops at the listing. *)
Lemma failed_lookup_writes_nothing_witness :
  on_update_item (E := PatchedEnv unreachable) spec_with_redis "ns"
    enable_item created_children (patched_world unreachable)
  = (Raise (OtherException "MaxRetryError"),
     patched_logged unreachable [ListDeployment "ns"]).
Proof.
  apply (failed_lookup_writes_nothing (E := PatchedEnv unreachable)).
  - reflexivity.
  - left. split; reflexivity.
Defined.

(** An update against a spec without image tag: redis is switched on, the
    tag change then fails, and the item that would switch redis off again
    is never reached, so redis stays deployed. *)
Lemma first_failure_ends_update_witness :
  fst (on_update (E := StoreEnv) spec_without_tag created_status "ns"
         [enable_item; tag_item; disable_item] (store_world created_store))
  = Raise (KeyError "tag")
  /\ map (fun e => meta_name (deployment_metadata (snd e)))
         (store_deployments
            (cluster (snd (on_update (E := StoreEnv) spec_without_tag
                             created_status "ns"
                             [enable_item; tag_item; disable_item]
                             (store_world created_store)))))
     = [Some "podinfo"; Some "redis"].
Proof.
  pose proof
    (first_failure_ends_update (E := StoreEnv) spec_without_tag created_status
       "ns" [enable_item] tag_item [disable_item] (store_world created_store)
       (VDict [("children", created_children)]) created_children
       (VDict [("redis", redis_created);
               ("podInfo",
                VDict [("created_on", VStr "Sat Jul 29 01:08:24 2023");
                       ("uid", VStr "uid-0")])])
       (snd (on_update_loop (E := StoreEnv) spec_without_tag "ns"
               [enable_item] created_children (store_world created_store)))
       (KeyError "tag")
       (snd (on_update_item (E := StoreEnv) spec_without_tag "ns" tag_item
               created_children
               (snd (on_update_loop (E := StoreEnv) spec_without_tag "ns"
                       [enable_item] created_children
                       (store_world created_store)))))
       eq_refl eq_refl eq_refl eq_refl) as Hrun.
  simpl app in Hrun. rewrite Hrun. split; reflexivity.
Defined.
